(** * Team task manager bot: task lifecycle and JSON-backed stores

    A shallow embedding of [cogs/task.py] (the task commands and the
    [load_json]/[save_json] helpers) and of [cogs/admin.py] (the per-guild
    configuration), with the properties of the task lifecycle, of date
    validation and of persistence stated over it.

    Conventions.
    - A command handler is an [async def] that mutates [self.tasks] in place,
      may send one message and [return] early, and otherwise runs to its last
      [followup.send].  It is modelled in a small state-and-early-return
      monad [Handler] over the cog's state.
    - Everything the handler reads from outside the cog is an explicit input:
      the clock ([datetime.utcnow().isoformat()]), the random identifier
      ([str(uuid.uuid4())]) and what the file system does to the next write.
    - A Python string is a [string] holding its UTF-8 encoding. *)

From Stdlib Require Import String Ascii NArith ZArith.
From stdpp Require Import base option list strings pretty gmap.

Local Open Scope string_scope.

(** ** [datetime.datetime.strptime(s, '%Y-%m-%d')]

    The handlers call the standard library's [strptime] only to learn
    whether it raises [ValueError].  CPython compiles the format to the
    regular expression
    [(?P<Y>\d\d\d\d)-(?P<m>1[0-2]|0[1-9]|[1-9])-(?P<d>3[0-1]|[1-2]\d|0[1-9]|[1-9]| [1-9])],
    matches it at the start of the string, rejects unconverted trailing
    data, and then builds a [date], which rejects year 0 and days past the
    end of the month.  Each group below lists its matches in the order the
    backtracking matcher tries the alternatives.

    A Python string is a sequence of code points; a [string] here holds
    its UTF-8 encoding and is decoded before matching.  The pattern is a
    [str] pattern, so [\d] matches every Unicode decimal digit and [int]
    reads its value, while a class such as [[1-9]] matches the ASCII
    characters only. *)
Module Strptime.

Local Open Scope N_scope.

(** *** Code points of a UTF-8 encoded string *)

Definition continuation (b : N) : bool := (128 <=? b) && (b <? 192).

(** What stands for bytes that encode no code point; no text a user can
    send decodes to it through this branch. *)
Definition replacement : N := 65533.

Fixpoint utf8_decode (bs : list N) : list N :=
  match bs with
  | [] => []
  | b0 :: r0 =>
      if b0 <? 128 then b0 :: utf8_decode r0
      else
        match r0 with
        | [] => [replacement]
        | b1 :: r1 =>
            if (194 <=? b0) && (b0 <? 224) && continuation b1
            then ((b0 - 192) * 64 + (b1 - 128)) :: utf8_decode r1
            else
              match r1 with
              | [] => replacement :: utf8_decode r0
              | b2 :: r2 =>
                  let cp3 := (b0 - 224) * 4096 + (b1 - 128) * 64 + (b2 - 128) in
                  if (224 <=? b0) && (b0 <? 240) && continuation b1
                     && continuation b2 && (2048 <=? cp3)
                     && negb ((55296 <=? cp3) && (cp3 <=? 57343))
                  then cp3 :: utf8_decode r2
                  else
                    match r2 with
                    | [] => replacement :: utf8_decode r0
                    | b3 :: r3 =>
                        let cp4 := (b0 - 240) * 262144 + (b1 - 128) * 4096
                                   + (b2 - 128) * 64 + (b3 - 128) in
                        if (240 <=? b0) && (b0 <? 248) && continuation b1
                           && continuation b2 && continuation b3
                           && (65536 <=? cp4) && (cp4 <=? 1114111)
                        then cp4 :: utf8_decode r3
                        else replacement :: utf8_decode r0
                    end
              end
        end
  end.

Definition code_points (s : string) : list N :=
  utf8_decode (N_of_ascii <$> list_ascii_of_string s).

(** *** Decimal digits

    The characters of Unicode category Nd (Unicode 14.0, the table of
    CPython 3.11) come in 66 runs of ten consecutive code points with the
    values 0 to 9; these are the first code points of the runs. *)
Definition decimal_starts : list N :=
  [48; 1632; 1776; 1984; 2406; 2534; 2662; 2790; 2918; 3046; 3174; 3302;
   3430; 3558; 3664; 3792; 3872; 4160; 4240; 6112; 6160; 6470; 6608; 6784;
   6800; 6992; 7088; 7232; 7248; 42528; 43216; 43264; 43472; 43504; 43600;
   44016; 65296; 66720; 68912; 69734; 69872; 69942; 70096; 70384; 70736;
   70864; 71248; 71360; 71472; 71904; 72016; 72784; 73040; 73120; 92768;
   92864; 93008; 120782; 120792; 120802; 120812; 120822; 123200; 123632;
   125264; 130032].

(** [\d]: the value of a decimal digit, [None] for any other character. *)
Definition digit_value (c : N) : option N :=
  (λ z, c - z) <$> List.find (λ z, (z <=? c) && (c <=? z + 9)) decimal_starts.

Definition is_digit (c : N) : bool := bool_decide (is_Some (digit_value c)).

Definition digit (c : N) : N := default 0 (digit_value c).

(** A class [[lo-hi]] of ASCII digits, with the value of the character. *)
Definition class (lo hi : N) (c : N) : option N :=
  if (48 + lo <=? c) && (c <=? 48 + hi) then Some (c - 48) else None.

(** A group applied to the remaining input: every way it can match, as
    (value, rest), most preferred first. *)
Definition Group := list N → list (N * list N).

(** [\d\d\d\d] *)
Definition group_Y : Group := λ s,
  match s with
  | a :: b :: c :: d :: r =>
      if is_digit a && is_digit b && is_digit c && is_digit d
      then [(1000 * digit a + 100 * digit b + 10 * digit c + digit d, r)]
      else []
  | _ => []
  end.

(** Two characters, each with its own recognizer. *)
Definition two (first second : N → option N) : Group := λ s,
  match s with
  | a :: b :: r =>
      match first a, second b with
      | Some x, Some y => [(10 * x + y, r)]
      | _, _ => []
      end
  | _ => []
  end.

Definition one (only : N → option N) : Group := λ s,
  match s with
  | a :: r => match only a with Some x => [(x, r)] | None => [] end
  | _ => []
  end.

(** A literal character; it contributes no value. *)
Definition lit (c : N) (s : list N) : list (list N) :=
  match s with
  | a :: r => if a =? c then [r] else []
  | [] => []
  end.

Definition dash : N := 45.
Definition space : N := 32.

(** [1[0-2]|0[1-9]|[1-9]] *)
Definition group_m : Group := λ s,
  (two (class 1 1) (class 0 2) s ++ two (class 0 0) (class 1 9) s
   ++ one (class 1 9) s)%list.

(** [3[0-1]|[1-2]\d|0[1-9]|[1-9]| [1-9]] *)
Definition group_d : Group := λ s,
  (two (class 3 3) (class 0 1) s ++ two (class 1 2) digit_value s
   ++ two (class 0 0) (class 1 9) s ++ one (class 1 9) s
   ++ (r ← lit space s; one (class 1 9) r))%list.

(** All matches of the whole pattern at the start of [s], in the order
    the matcher finds them; [re.match] returns the first. *)
Definition matches (s : list N) : list (N * N * N * list N) :=
  '(y, r1) ← group_Y s;
  r2 ← lit dash r1;
  '(m, r3) ← group_m r2;
  r4 ← lit dash r3;
  '(d, r5) ← group_d r4;
  [(y, m, d, r5)].

Definition is_leap (y : N) : bool :=
  (y mod 4 =? 0) && (negb (y mod 100 =? 0) || (y mod 400 =? 0)).

Definition days_in_month (y m : N) : N :=
  match m with
  | 2 => if is_leap y then 29 else 28
  | 4 | 6 | 9 | 11 => 30
  | _ => 31
  end.

(** [datetime.date(y, m, d)] accepts years 1..9999 and days that exist. *)
Definition valid_date (y m d : N) : bool :=
  (1 <=? y) && (y <=? 9999) && (1 <=? m) && (m <=? 12)
  && (1 <=? d) && (d <=? days_in_month y m).

(** [Some (y, m, d)] when [strptime] returns, [None] when it raises
    [ValueError]. *)
Definition strptime (s : string) : option (N * N * N) :=
  match matches (code_points s) with
  | (y, m, d, rest) :: _ =>
      match rest with
      | [] => if valid_date y m d then Some (y, m, d) else None
      | _ :: _ => None  (* unconverted data remains *)
      end
  | [] => None          (* time data does not match format *)
  end.


(** The zero-padded spelling YYYY-MM-DD of a date, the form the command
    descriptions ask the user for. *)
Definition digit_char (n : N) : ascii := ascii_of_N (48 + n).

Definition ymd_string (y m d : N) : string :=
  string_of_list_ascii
    [digit_char (y / 1000); digit_char (y / 100 mod 10);
     digit_char (y / 10 mod 10); digit_char (y mod 10); "-"%char;
     digit_char (m / 10); digit_char (m mod 10); "-"%char;
     digit_char (d / 10); digit_char (d mod 10)].

End Strptime.


(** ** The JSON persistence primitive ([load_json], [save_json]) *)
Module Persistence.

(** What the backing file holds: nothing, bytes that do not decode as
    JSON, or a document. *)
Inductive File (A : Type) : Type :=
| Missing
| Unreadable
| Json (data : A).
Arguments Missing {A}.
Arguments Unreadable {A}.
Arguments Json {A} data.

(** What the file system does to one call of [save_json]: the step that
    raises, if any. *)
Inductive FsOutcome : Type :=
| MakedirsRaises   (* os.makedirs(os.path.dirname(file_path), exist_ok=True) *)
| OpenRaises       (* open(file_path, 'w', encoding='utf-8') *)
| DumpRaises       (* json.dump(data, f, ensure_ascii=False, indent=2) *)
| WriteOk.

(** How a call ends for its caller. *)
Inductive SaveResult : Type :=
| Raised
| Returned.

(** [load_json]: the empty dict when the file is absent or does not
    decode; never raises. *)
Definition load_json {A} (empty : A) (file : File A) : A :=
  match file with
  | Missing => empty
  | Unreadable => empty
  | Json data => data
  end.

(** [save_json]: [os.makedirs] sits before the [try]; [open] and
    [json.dump] sit inside it, and the [except Exception] clause prints
    and falls through.  A failed [open] leaves the file as it was; a
    failed [json.dump] leaves the truncated file with a partial
    document. *)
Definition save_json {A} (fs : FsOutcome) (data : A) (file : File A)
  : SaveResult * File A :=
  match fs with
  | MakedirsRaises => (Raised, file)
  | OpenRaises => (Returned, file)
  | DumpRaises => (Returned, Unreadable)
  | WriteOk => (Returned, Json data)
  end.

End Persistence.

(** ** Task records *)
Module Task.

(** One element of [self.tasks['tasks']].  The keys [completed_at] and
    [deleted_at] are absent until the transition that writes them. *)
Record t : Type := Build {
  id : string;
  title : string;
  description : string;
  due_date : option string;
  assignee_id : option Z;
  creator_id : Z;
  created_at : string;
  status : string;
  completed_at : option string;
  deleted_at : option string
}.

(** [task[key] = v] *)
Definition set_title (v : string) (x : t) : t :=
  Build (id x) v (description x) (due_date x) (assignee_id x) (creator_id x)
        (created_at x) (status x) (completed_at x) (deleted_at x).
Definition set_description (v : string) (x : t) : t :=
  Build (id x) (title x) v (due_date x) (assignee_id x) (creator_id x)
        (created_at x) (status x) (completed_at x) (deleted_at x).
Definition set_due_date (v : option string) (x : t) : t :=
  Build (id x) (title x) (description x) v (assignee_id x) (creator_id x)
        (created_at x) (status x) (completed_at x) (deleted_at x).
Definition set_assignee_id (v : option Z) (x : t) : t :=
  Build (id x) (title x) (description x) (due_date x) v (creator_id x)
        (created_at x) (status x) (completed_at x) (deleted_at x).
Definition set_status (v : string) (x : t) : t :=
  Build (id x) (title x) (description x) (due_date x) (assignee_id x)
        (creator_id x) (created_at x) v (completed_at x) (deleted_at x).
Definition set_completed_at (v : option string) (x : t) : t :=
  Build (id x) (title x) (description x) (due_date x) (assignee_id x)
        (creator_id x) (created_at x) (status x) v (deleted_at x).
Definition set_deleted_at (v : option string) (x : t) : t :=
  Build (id x) (title x) (description x) (due_date x) (assignee_id x)
        (creator_id x) (created_at x) (status x) (completed_at x) v.

End Task.

(** ** [TaskCog] *)
Module TaskCog.
Import Persistence.

(** The cog's state: [self.tasks['tasks']] and the content of
    [data/tasks.json]. *)
Record State : Type := {
  tasks : list Task.t;
  tasks_file : File (list Task.t)
}.

(** [__init__]: [load_json] then [setdefault('tasks', [])]. *)
Definition init (file : File (list Task.t)) : State :=
  {| tasks := load_json [] file; tasks_file := file |}.

(** What a command invocation reads from outside the cog. *)
Record Env : Type := {
  uuid4 : string;      (* str(uuid.uuid4()) *)
  utcnow : string;     (* datetime.datetime.utcnow().isoformat() *)
  fs : FsOutcome       (* the fate of the save this invocation attempts *)
}.

(** The one message a handler sends.  The error replies are, in the
    vocabulary of the specification: [ErrInvalidDate] InvalidDateError,
    [ErrNotFound] NotFoundError, [ErrAlreadyDone] AlreadyDoneError,
    [ErrAlreadyDeleted] AlreadyDeletedError, [ErrSave] the reply of the
    [except Exception] clause around [save_json] (PersistenceError). *)
Inductive Response : Type :=
| TaskCreated (task : Task.t)
| TaskList (shown : list Task.t) (more : bool) (total : nat)
| NoActiveTasks
| TaskCompleted (task : Task.t)
| TaskDeleted (task : Task.t)
| TaskEdited (task : Task.t)
| ErrInvalidDate
| ErrNotFound
| ErrAlreadyDone
| ErrAlreadyDeleted
| ErrSave.

(** *** The handler monad *)

(** A step either sent its reply and returned, or goes on with a value. *)
Inductive Step (A : Type) : Type :=
| Sent (r : Response)
| Next (a : A).
Arguments Sent {A} r.
Arguments Next {A} a.

Definition Handler (A : Type) : Type := State → Step A * State.

Definition ret {A} (a : A) : Handler A := λ s, (Next a, s).

Definition bind {A B} (m : Handler A) (k : A → Handler B) : Handler B :=
  λ s, match m s with
       | (Sent r, s') => (Sent r, s')
       | (Next a, s') => k a s'
       end.

Notation "x <- m ;; k" := (bind m (λ x, k))
  (at level 100, m at next level, right associativity).
Notation "m ;; k" := (bind m (λ _, k))
  (at level 100, right associativity).

(** [await interaction.followup.send(...); return] *)
Definition reply {A} (r : Response) : Handler A := λ s, (Sent r, s).

Definition gets {A} (f : State → A) : Handler A := λ s, (Next (f s), s).

(** The reply and the state a whole handler leaves. *)
Definition run (h : Handler Response) (s : State) : Response * State :=
  match h s with
  | (Sent r, s') => (r, s')
  | (Next r, s') => (r, s')
  end.

(** [self.tasks['tasks'].append(new_task)] *)
Definition append (new_task : Task.t) : Handler unit :=
  λ s, (Next (), {| tasks := tasks s ++ [new_task];
                    tasks_file := tasks_file s |}).

(** The lookup loop shared by the handlers:
    [for task in self.tasks['tasks']: if task['id'] == task_id: ... break].
    [found_task] is a reference to the element, here its position. *)
Fixpoint find_task (task_id : string) (l : list Task.t) : option nat :=
  match l with
  | [] => None
  | task :: rest =>
      if decide (Task.id task = task_id) then Some 0
      else S <$> find_task task_id rest
  end.

(** Reading through the reference.  A position returned by [find_task]
    is always in range; the [None] branch is never taken. *)
Definition deref (found_task : nat) : Handler Task.t :=
  λ s, match tasks s !! found_task with
       | Some task => (Next task, s)
       | None => (Sent ErrNotFound, s)
       end.

(** [found_task[key] = v]: the element of the shared list is updated in
    place. *)
Definition assign (found_task : nat) (f : Task.t → Task.t) : Handler unit :=
  λ s, (Next (), {| tasks := alter f found_task (tasks s);
                    tasks_file := tasks_file s |}).

(** [try: save_json(TASKS_FILE, self.tasks)] with its
    [except Exception: send; return]. *)
Definition try_save (env : Env) : Handler unit :=
  λ s, match save_json (fs env) (tasks s) (tasks_file s) with
       | (Raised, file) =>
           (Sent ErrSave, {| tasks := tasks s; tasks_file := file |})
       | (Returned, file) =>
           (Next (), {| tasks := tasks s; tasks_file := file |})
       end.

(** Truth value of an [Optional[str]] argument. *)
Definition truthy (o : option string) : bool :=
  match o with
  | None => false
  | Some v => if decide (v = "") then false else true
  end.

(** *** [task_add] *)
Definition task_add (env : Env) (user_id : Z) (title : string)
    (description due_date : option string) (assignee : option Z)
  : Handler Response :=
  let task_id := substring 0 8 (uuid4 env) in
  parsed_due_date <-
    (match due_date with
     | Some d =>
         if truthy due_date then
           match Strptime.strptime d with
           | Some _ => ret (Some d)
           | None => reply ErrInvalidDate
           end
         else ret None
     | None => ret None
     end) ;;
  let new_task :=
    Task.Build task_id title
      (match description with
       | Some d => if truthy description then d else ""
       | None => ""
       end)
      parsed_due_date assignee user_id (utcnow env) "active" None None in
  append new_task ;;
  try_save env ;;
  ret (TaskCreated new_task).

(** *** [task_list] *)

(** [[task for task in self.tasks['tasks'] if task['status'] == 'active']] *)
Fixpoint active_tasks (l : list Task.t) : list Task.t :=
  match l with
  | [] => []
  | task :: rest =>
      if decide (Task.status task = "active")
      then task :: active_tasks rest
      else active_tasks rest
  end.

(** The embed lists at most ten tasks and the total in its footer. *)
Definition task_list : Handler Response :=
  active <- gets (λ s, active_tasks (tasks s)) ;;
  match active with
  | [] => reply NoActiveTasks
  | _ :: _ =>
      ret (TaskList (take 10 active) (bool_decide (10 < length active))
                    (length active))
  end.

(** *** [task_done] *)
Definition task_done (env : Env) (task_id : string) : Handler Response :=
  found <- gets (λ s, find_task task_id (tasks s)) ;;
  match found with
  | None => reply ErrNotFound
  | Some found_task =>
      task <- deref found_task ;;
      if decide (Task.status task = "done") then reply ErrAlreadyDone
      else if decide (Task.status task = "deleted") then reply ErrAlreadyDeleted
      else
        assign found_task (Task.set_status "done") ;;
        assign found_task (Task.set_completed_at (Some (utcnow env))) ;;
        try_save env ;;
        task <- deref found_task ;;
        ret (TaskCompleted task)
  end.

(** *** [task_delete] *)
Definition task_delete (env : Env) (task_id : string) : Handler Response :=
  found <- gets (λ s, find_task task_id (tasks s)) ;;
  match found with
  | None => reply ErrNotFound
  | Some found_task =>
      task <- deref found_task ;;
      if decide (Task.status task = "deleted") then reply ErrAlreadyDeleted
      else
        assign found_task (Task.set_status "deleted") ;;
        assign found_task (Task.set_deleted_at (Some (utcnow env))) ;;
        try_save env ;;
        task <- deref found_task ;;
        ret (TaskDeleted task)
  end.

(** *** [task_edit] *)

(** [if v is not None: found_task[key] = v] *)
Definition assign_if {A} (found_task : nat) (v : option A)
    (set : A → Task.t → Task.t) : Handler unit :=
  match v with
  | Some a => assign found_task (set a)
  | None => ret ()
  end.

Definition task_edit (env : Env) (task_id : string)
    (title description due_date : option string) (assignee : option Z)
  : Handler Response :=
  found <- gets (λ s, find_task task_id (tasks s)) ;;
  match found with
  | None => reply ErrNotFound
  | Some found_task =>
      assign_if found_task title Task.set_title ;;
      assign_if found_task description Task.set_description ;;
      assign_if found_task assignee (λ a, Task.set_assignee_id (Some a)) ;;
      task <- deref found_task ;;
      parsed_due_date <-
        (match due_date with
         | None => ret (Task.due_date task)
         | Some d =>
             if decide (d = "none") then ret None
             else match Strptime.strptime d with
                  | Some _ => ret (Some d)
                  | None => reply ErrInvalidDate
                  end
         end) ;;
      assign found_task (Task.set_due_date parsed_due_date) ;;
      try_save env ;;
      task <- deref found_task ;;
      ret (TaskEdited task)
  end.

(** *** Sequences of [task_add] invocations *)
Record AddCall : Type := {
  call_env : Env;
  call_user : Z;
  call_title : string;
  call_description : option string;
  call_due_date : option string;
  call_assignee : option Z
}.

Definition add_call (c : AddCall) : Handler Response :=
  task_add (call_env c) (call_user c) (call_title c) (call_description c)
           (call_due_date c) (call_assignee c).

Definition run_adds (calls : list AddCall) (s : State) : State :=
  foldl (λ s c, (run (add_call c) s).2) s calls.

(** The id [task_add] gives the task of a call. *)
Definition drawn_id (c : AddCall) : string :=
  substring 0 8 (uuid4 (call_env c)).

(** *** Vocabulary of the statements *)

(** [task], at position [i], is the task the lookup loop stops at: the
    first one of the list whose id is [task_id]. *)
Definition first_with_id (l : list Task.t) (task_id : string)
    (i : nat) (task : Task.t) : Prop :=
  l !! i = Some task ∧ Task.id task = task_id ∧
  ∀ j other, j < i → l !! j = Some other → Task.id other ≠ task_id.

(** No task of the list has id [task_id]. *)
Definition no_task_with_id (l : list Task.t) (task_id : string) : Prop :=
  ∀ task, task ∈ l → Task.id task ≠ task_id.

(** Any two tasks at different positions have different ids. *)
Definition ids_unique (l : list Task.t) : Prop :=
  ∀ i j ti tj, l !! i = Some ti → l !! j = Some tj →
               Task.id ti = Task.id tj → i = j.

(** The reply of a handler whose last step before the confirmation is the
    save: the error of the [except] clause when [save_json] raised, the
    confirmation otherwise. *)
Definition after_save (env : Env) (confirmation : Response) : Response :=
  match fs env with
  | MakedirsRaises => ErrSave
  | _ => confirmation
  end.

(** The state a handler leaves when it rewrote the list to [l] and then
    saved. *)
Definition saved (env : Env) (l : list Task.t) (s : State) : State :=
  {| tasks := l; tasks_file := (save_json (fs env) l (tasks_file s)).2 |}.

Ltac run_handler :=
  unfold run, task_add, task_done, task_delete, task_edit, task_list,
    assign_if, bind, gets, reply, ret, deref, assign, append, try_save,
    after_save, saved; simpl.

(** The fields [task_edit] writes before it looks at the due date. *)
Definition early_writes (title description : option string)
    (assignee : option Z) (task : Task.t) : Task.t :=
  let task := from_option (λ v, Task.set_title v task) task title in
  let task := from_option (λ v, Task.set_description v task) task description in
  from_option (λ a, Task.set_assignee_id (Some a) task) task assignee.

(** The due date [task_edit] settles on for a request it accepts. *)
Definition edited_due_date (due_date : option string) (task : Task.t)
  : option string :=
  match due_date with
  | None => Task.due_date task
  | Some d => if decide (d = "none") then None else Some d
  end.

(** The sample store of the scenarios: one active task due 2024-01-15. *)
Definition report : Task.t :=
  Task.Build "a1b2c3d4" "Write report" "" (Some "2024-01-15") None 7
             "2024-01-01T09:00:00" "active" None None.

Definition store : State := {| tasks := [report]; tasks_file := Json [report] |}.

Definition env_ok : Env :=
  {| uuid4 := "deadbeef-0000-4000-8000-000000000001";
     utcnow := "2024-02-02T10:00:00";
     fs := WriteOk |}.

(** Two invocations whose random identifiers differ but agree on their
    first eight characters. *)
Definition call_a : AddCall :=
  {| call_env := env_ok; call_user := 7; call_title := "Write report";
     call_description := None; call_due_date := None; call_assignee := None |}.

Definition call_b : AddCall :=
  {| call_env := {| uuid4 := "deadbeef-1111-4111-9111-000000000002";
                    utcnow := "2024-02-03T11:30:00";
                    fs := WriteOk |};
     call_user := 8; call_title := "Review report";
     call_description := None; call_due_date := None; call_assignee := None |}.

(** *** [task_detail] *)

(** The colour of the embed: blue unless the status is one of the three
    the handler tests for. *)
Inductive Color : Type := Blue | Green | LightGrey | Red.

Definition status_color (status : string) : Color :=
  if decide (status = "active") then Green
  else if decide (status = "done") then LightGrey
  else if decide (status = "deleted") then Red
  else Blue.

(** The embed of [task_detail], as the data it is built from: the colour,
    the record whose fields it prints, and the two time fields it adds only
    when the key is present with a true value.  How user ids are resolved
    to mentions is not modelled. *)
Record Detail : Type := {
  detail_color : Color;
  detail_task : Task.t;
  detail_completed_at : option string;
  detail_deleted_at : option string
}.

Definition task_detail (task_id : string) : Handler Detail :=
  found <- gets (λ s, find_task task_id (tasks s)) ;;
  match found with
  | None => reply ErrNotFound
  | Some found_task =>
      task <- deref found_task ;;
      ret {| detail_color := status_color (Task.status task);
             detail_task := task;
             detail_completed_at :=
               if truthy (Task.completed_at task)
               then Task.completed_at task else None;
             detail_deleted_at :=
               if truthy (Task.deleted_at task)
               then Task.deleted_at task else None |}
  end.

(** *** Command invocations

    The state of the cog is read and written only between the first
    [await] of a handler (the deferral) and its reply, so the invocations
    the bot receives act on the state one after the other. *)
Inductive Command : Type :=
| CmdAdd (call : AddCall)
| CmdList
| CmdDone (env : Env) (task_id : string)
| CmdDelete (env : Env) (task_id : string)
| CmdEdit (env : Env) (task_id : string)
           (title description due_date : option string) (assignee : option Z)
| CmdDetail (task_id : string).

(** What the user gets back: a message, or the detail embed. *)
Inductive Outcome : Type :=
| Replied (r : Response)
| Detailed (d : Detail).

Definition exec (c : Command) (s : State) : Outcome * State :=
  match c with
  | CmdAdd call => let '(r, s') := run (add_call call) s in (Replied r, s')
  | CmdList => let '(r, s') := run task_list s in (Replied r, s')
  | CmdDone env task_id =>
      let '(r, s') := run (task_done env task_id) s in (Replied r, s')
  | CmdDelete env task_id =>
      let '(r, s') := run (task_delete env task_id) s in (Replied r, s')
  | CmdEdit env task_id title description due_date assignee =>
      let '(r, s') :=
        run (task_edit env task_id title description due_date assignee) s in
      (Replied r, s')
  | CmdDetail task_id =>
      match task_detail task_id s with
      | (Sent r, s') => (Replied r, s')
      | (Next d, s') => (Detailed d, s')
      end
  end.

Definition step (c : Command) (s : State) : State := (exec c s).2.

Definition steps (cs : list Command) (s : State) : State :=
  foldl (λ s c, step c s) s cs.

(** *** Vocabulary of the statements on invocations *)

(** The environment of an invocation that may save, and the id it names. *)
Definition cmd_env (c : Command) : option Env :=
  match c with
  | CmdAdd call => Some (call_env call)
  | CmdDone env _ | CmdDelete env _ | CmdEdit env _ _ _ _ _ => Some env
  | CmdList | CmdDetail _ => None
  end.

Definition cmd_task_id (c : Command) : option string :=
  match c with
  | CmdDone _ task_id | CmdDelete _ task_id | CmdEdit _ task_id _ _ _ _
  | CmdDetail task_id => Some task_id
  | CmdAdd _ | CmdList => None
  end.

(** The position an invocation addresses, if any. *)
Definition cmd_target (c : Command) (s : State) : option nat :=
  task_id ← cmd_task_id c; find_task task_id (tasks s).

(** The lifecycle of a record as its fields show it. *)
Definition lifecycle_ok (task : Task.t) : Prop :=
  (Task.status task = "active" ∧
   Task.completed_at task = None ∧ Task.deleted_at task = None) ∨
  (Task.status task = "done" ∧
   is_Some (Task.completed_at task) ∧ Task.deleted_at task = None) ∨
  (Task.status task = "deleted" ∧ is_Some (Task.deleted_at task)).

(** The due date, when set, is a string the date parser accepts. *)
Definition due_date_ok (task : Task.t) : Prop :=
  ∀ d, Task.due_date task = Some d → is_Some (Strptime.strptime d).

(** The file holds exactly the list in memory. *)
Definition in_sync (s : State) : Prop := tasks_file s = Json (tasks s).

(** A record as [task_add] builds it. *)
Definition fresh_task (task : Task.t) : Prop :=
  Task.status task = "active" ∧ Task.completed_at task = None ∧
  Task.deleted_at task = None ∧ due_date_ok task.

(** The ways a handler rewrites the record it found. *)
Inductive task_change : Task.t → Task.t → Prop :=
| change_done now task :
    Task.status task ≠ "done" → Task.status task ≠ "deleted" →
    task_change task
      (Task.set_completed_at (Some now) (Task.set_status "done" task))
| change_deleted now task :
    Task.status task ≠ "deleted" →
    task_change task
      (Task.set_deleted_at (Some now) (Task.set_status "deleted" task))
| change_edited title description assignee due task :
    due = Task.due_date task ∨ due = None ∨
    (∃ d, due = Some d ∧ is_Some (Strptime.strptime d)) →
    task_change task
      (Task.set_due_date due (early_writes title description assignee task)).

(** Replies that report without a change, and the confirmations. *)
Inductive quiet : Response → Prop :=
| quiet_not_found : quiet ErrNotFound
| quiet_already_done : quiet ErrAlreadyDone
| quiet_already_deleted : quiet ErrAlreadyDeleted
| quiet_no_active : quiet NoActiveTasks
| quiet_list shown more total : quiet (TaskList shown more total).

Inductive confirms (task : Task.t) : Response → Prop :=
| confirms_completed : confirms task (TaskCompleted task)
| confirms_deleted : confirms task (TaskDeleted task)
| confirms_edited : confirms task (TaskEdited task).

(** The courses an invocation can take. *)
Inductive exec_case (c : Command) (s : State) : Outcome * State → Prop :=
| case_quiet r :
    quiet r → exec_case c s (Replied r, s)
| case_detail d task i :
    c = CmdDetail (Task.id task) →
    first_with_id (tasks s) (Task.id task) i task →
    d = {| detail_color := status_color (Task.status task);
           detail_task := task;
           detail_completed_at :=
             if truthy (Task.completed_at task)
             then Task.completed_at task else None;
           detail_deleted_at :=
             if truthy (Task.deleted_at task)
             then Task.deleted_at task else None |} →
    exec_case c s (Detailed d, s)
| case_add_rejected call :
    c = CmdAdd call → exec_case c s (Replied ErrInvalidDate, s)
| case_added call new :
    c = CmdAdd call → fresh_task new → Task.id new = drawn_id call →
    exec_case c s
      (Replied (after_save (call_env call) (TaskCreated new)),
       saved (call_env call) (tasks s ++ [new]) s)
| case_changed env i task task' r :
    cmd_env c = Some env → cmd_target c s = Some i →
    tasks s !! i = Some task → task_change task task' → confirms task' r →
    exec_case c s
      (Replied (after_save env r), saved env (<[i := task']> (tasks s)) s)
| case_edit_rejected i task title description assignee :
    (∃ env task_id due,
       c = CmdEdit env task_id title description (Some due) assignee) →
    cmd_target c s = Some i → tasks s !! i = Some task →
    exec_case c s
      (Replied ErrInvalidDate,
       {| tasks := <[i := early_writes title description assignee task]>
                     (tasks s);
          tasks_file := tasks_file s |}).

(** A sample session on the sample store: an add, an edit with a
    malformed date, a completion, a deletion and a listing. *)
Definition session : list Command :=
  [CmdAdd call_a;
   CmdEdit env_ok "a1b2c3d4" (Some "Draft") None (Some "2024-13-40") None;
   CmdDone env_ok "a1b2c3d4";
   CmdDelete env_ok "deadbeef";
   CmdList].

End TaskCog.

(** ** [AdminCog] *)
Module AdminCog.
Import Persistence.

(** The cog's state: [self.config_data], a dict from [str(guild_id)] to
    the guild's settings dict, and the content of the config file. *)
Record State : Type := {
  config_data : gmap string (gmap string Z);
  config_file : File (gmap string (gmap string Z))
}.

(** Modelled from the spec: [utils/helpers.py] is not among the sources,
    so [save_config_data] follows the contract of [persist()]: it
    serializes the full map to the backing store and raises if the write
    fails, with no retry. *)
Definition save_config_data (fs : FsOutcome)
    (data : gmap string (gmap string Z))
    (file : File (gmap string (gmap string Z)))
  : SaveResult * File (gmap string (gmap string Z)) :=
  match fs with
  | MakedirsRaises => (Raised, file)
  | OpenRaises => (Raised, file)
  | DumpRaises => (Raised, Unreadable)
  | WriteOk => (Returned, Json data)
  end.

(** Modelled from the spec: [load_config_data] of the absent
    [utils/helpers.py], by the contract of [load(path)]: an empty map
    when the file is absent or invalid. *)
Definition load_config_data (file : File (gmap string (gmap string Z)))
  : gmap string (gmap string Z) :=
  load_json ∅ file.

Definition init (file : File (gmap string (gmap string Z))) : State :=
  {| config_data := load_config_data file; config_file := file |}.

Inductive Response : Type :=
| GuildOnly
| ConfigShown (welcome_channel_id logging_channel_id : option Z)
| WelcomeChannelSet (channel : Z)
| LoggingChannelSet (channel : Z)
| ConfigError.

(** [_get_guild_config]: the returned dict is the one stored in
    [self.config_data], so the caller's later writes to it are writes to
    the map at [str(guild_id)]. *)
Definition _get_guild_config (guild_id : Z) (s : State)
  : gmap string Z * State :=
  let guild_id_str : string := pretty guild_id in
  let s' :=
    match config_data s !! guild_id_str with
    | None => {| config_data := <[guild_id_str := ∅]> (config_data s);
                 config_file := config_file s |}
    | Some _ => s
    end in
  (config_data s' !!! guild_id_str, s').

(** [guild_config[key] = channel.id] on the dict [_get_guild_config]
    returned for [guild_id]. *)
Definition set_key (guild_id : Z) (key : string) (v : Z) (s : State) : State :=
  let guild_id_str : string := pretty guild_id in
  {| config_data :=
       <[guild_id_str := <[key := v]> (config_data s !!! guild_id_str)]>
         (config_data s);
     config_file := config_file s |}.

(** Truth value of [guild_config.get(key)]. *)
Definition shown (guild_config : gmap string Z) (key : string) : option Z :=
  match guild_config !! key with
  | Some v => if decide (v = 0%Z) then None else Some v
  | None => None
  end.

Definition config_show (guild : option Z) (s : State) : Response * State :=
  match guild with
  | None => (GuildOnly, s)
  | Some guild_id =>
      let '(guild_config, s1) := _get_guild_config guild_id s in
      (ConfigShown (shown guild_config "welcome_channel_id")
                   (shown guild_config "logging_channel_id"), s1)
  end.

(** The body shared by [config_set_welcome_channel] and
    [config_set_logging_channel], which differ in the key and the reply. *)
Definition config_set (key : string) (ok : Z → Response) (fs : FsOutcome)
    (guild : option Z) (channel : Z) (s : State) : Response * State :=
  match guild with
  | None => (GuildOnly, s)
  | Some guild_id =>
      let '(_, s1) := _get_guild_config guild_id s in
      let s2 := set_key guild_id key channel s1 in
      match save_config_data fs (config_data s2) (config_file s2) with
      | (Returned, file) =>
          (ok channel, {| config_data := config_data s2; config_file := file |})
      | (Raised, file) =>
          (ConfigError, {| config_data := config_data s2; config_file := file |})
      end
  end.

Definition config_set_welcome_channel :=
  config_set "welcome_channel_id" WelcomeChannelSet.

Definition config_set_logging_channel :=
  config_set "logging_channel_id" LoggingChannelSet.

(** What [config_show] displays for a guild and a key in a given state:
    the stored value when it is true, nothing when the key or the whole
    record is missing. *)
Definition visible (s : State) (guild_id : Z) (key : string) : option Z :=
  shown (config_data s !!! (pretty guild_id : string)) key.

(** The three guild commands, for statements about all of them. *)
Inductive Command : Type :=
| Show
| SetWelcome (fs : FsOutcome) (channel : Z)
| SetLogging (fs : FsOutcome) (channel : Z).

Definition exec (c : Command) (guild : option Z) (s : State)
  : Response * State :=
  match c with
  | Show => config_show guild s
  | SetWelcome fs channel => config_set_welcome_channel fs guild channel s
  | SetLogging fs channel => config_set_logging_channel fs guild channel s
  end.

End AdminCog.


(** * Properties *)

Import Persistence TaskCog.

(** ** The date parser on sample inputs *)

Example strptime_ok : Strptime.strptime "2024-01-15" = Some (2024, 1, 15)%N.
Proof. reflexivity. Qed.
Example strptime_short : Strptime.strptime "2024-1-5" = Some (2024, 1, 5)%N.
Proof. reflexivity. Qed.
Example strptime_bad : Strptime.strptime "2024-13-40" = None.
Proof. reflexivity. Qed.
Example strptime_feb : Strptime.strptime "2023-02-29" = None.
Proof. reflexivity. Qed.
Example strptime_sp : Strptime.strptime "2024-02- 9" = Some (2024, 2, 9)%N.
Proof. reflexivity. Qed.
Example strptime_y0 : Strptime.strptime "0000-02-09" = None.
Proof. reflexivity. Qed.
Example strptime_m : Strptime.strptime "2024-10-31" = Some (2024, 10, 31)%N.
Proof. reflexivity. Qed.
Example strptime_empty : Strptime.strptime "" = None.
Proof. reflexivity. Qed.
Example strptime_trailing : Strptime.strptime "2024-01-150" = None.
Proof. reflexivity. Qed.
Example strptime_fullwidth_year :
  Strptime.strptime "２０２４-01-15" = Some (2024, 1, 15)%N.
Proof. reflexivity. Qed.
Example strptime_fullwidth_month : Strptime.strptime "2024-０1-15" = None.
Proof. reflexivity. Qed.
Example strptime_fullwidth_day :
  Strptime.strptime "2024-01-1５" = Some (2024, 1, 15)%N.
Proof. reflexivity. Qed.
Example strptime_arabic_year :
  Strptime.strptime "٢٠٢٤-01-15" = Some (2024, 1, 15)%N.
Proof. reflexivity. Qed.
Example strptime_fullwidth_day_class : Strptime.strptime "2024-01-３0" = None.
Proof. reflexivity. Qed.

(** ** The lookup loop *)

Lemma find_task_None (task_id : string) (l : list Task.t) :
  find_task task_id l = None ↔ no_task_with_id l task_id.
Proof.
  unfold no_task_with_id. induction l as [|task rest IH]; simpl.
  - split; [intros _ x Hx; inversion Hx | done].
  - destruct (decide (Task.id task = task_id)) as [Heq|Hne].
    + split; [done|]. intros H. exfalso. apply (H task); [left | done].
    + rewrite fmap_None, IH. split.
      * intros H x Hx. apply elem_of_cons in Hx as [->|Hx]; auto.
      * intros H x Hx. apply H. by right.
Qed.

Lemma find_task_Some (task_id : string) (l : list Task.t) (i : nat) :
  find_task task_id l = Some i ↔ ∃ task, first_with_id l task_id i task.
Proof.
  unfold first_with_id. revert i.
  induction l as [|task rest IH]; intros i; simpl.
  - split; [done | by intros (? & ? & _)].
  - destruct (decide (Task.id task = task_id)) as [Heq|Hne].
    + split.
      * intros [= <-]. exists task. repeat split; [done|]. intros; lia.
      * intros (x & Hx & Hid & Hfirst). destruct i as [|i]; [done|].
        exfalso. apply (Hfirst 0 task); [lia | done | done].
    + rewrite fmap_Some. split.
      * intros (k & Hk & ->). apply IH in Hk as (x & Hx & Hid & Hfirst).
        exists x. repeat split; [done..|].
        intros [|j] other Hj Hother; simplify_eq/=; [done|].
        apply (Hfirst j); [lia | done].
      * intros (x & Hx & Hid & Hfirst). destruct i as [|i].
        { simplify_eq/=. }
        exists i. split; [|done]. apply IH. exists x. repeat split; [done..|].
        intros j other Hj Hother. apply (Hfirst (S j)); [lia | done].
Qed.

Lemma first_with_id_find (l : list Task.t) task_id i task :
  first_with_id l task_id i task → find_task task_id l = Some i.
Proof. intros H. apply find_task_Some. by exists task. Qed.

Lemma first_with_id_lookup (l : list Task.t) task_id i task :
  first_with_id l task_id i task → l !! i = Some task.
Proof. by intros (? & _). Qed.

(** Writing fields other than the id through the reference keeps it the
    first task with that id. *)
Lemma first_with_id_alter (l : list Task.t) task_id i task f :
  (∀ x, Task.id (f x) = Task.id x) →
  first_with_id l task_id i task →
  first_with_id (alter f i l) task_id i (f task).
Proof.
  intros Hf (Hi & Hid & Hfirst). repeat split.
  - by rewrite list_lookup_alter_eq, Hi.
  - by rewrite Hf.
  - intros j other Hj. rewrite list_lookup_alter_ne by lia. by apply Hfirst.
Qed.

Lemma alter_as_insert (l : list Task.t) i task f :
  l !! i = Some task → alter f i l = <[i := f task]> l.
Proof.
  intros Hi. apply list_eq. intros j.
  destruct (decide (i = j)) as [<-|Hne].
  - rewrite list_lookup_alter_eq, Hi, list_lookup_insert_eq; [done|].
    by eapply lookup_lt_Some.
  - by rewrite list_lookup_alter_ne, list_lookup_insert_ne.
Qed.

(** ** Running handlers *)

(** *** [task_done] *)

Lemma task_done_not_found env s task_id :
  no_task_with_id (tasks s) task_id →
  run (task_done env task_id) s = (ErrNotFound, s).
Proof. intros H%find_task_None. run_handler. by rewrite H. Qed.

Lemma task_done_already_done env s task_id i task :
  first_with_id (tasks s) task_id i task → Task.status task = "done" →
  run (task_done env task_id) s = (ErrAlreadyDone, s).
Proof.
  intros Hfirst Hst. run_handler.
  rewrite (first_with_id_find _ _ _ _ Hfirst), (first_with_id_lookup _ _ _ _ Hfirst).
  by rewrite decide_True.
Qed.

Lemma task_done_already_deleted env s task_id i task :
  first_with_id (tasks s) task_id i task → Task.status task = "deleted" →
  run (task_done env task_id) s = (ErrAlreadyDeleted, s).
Proof.
  intros Hfirst Hst. run_handler.
  rewrite (first_with_id_find _ _ _ _ Hfirst), (first_with_id_lookup _ _ _ _ Hfirst).
  rewrite decide_False by (by rewrite Hst). by rewrite decide_True.
Qed.

Lemma task_done_completes env s task_id i task :
  first_with_id (tasks s) task_id i task →
  Task.status task ≠ "done" → Task.status task ≠ "deleted" →
  let done := Task.set_completed_at (Some (utcnow env))
                (Task.set_status "done" task) in
  run (task_done env task_id) s
  = (after_save env (TaskCompleted done),
     saved env (<[i := done]> (tasks s)) s).
Proof.
  intros Hfirst Hnd Hndel done. run_handler.
  rewrite (first_with_id_find _ _ _ _ Hfirst), (first_with_id_lookup _ _ _ _ Hfirst).
  rewrite !decide_False by done.
  rewrite list_alter_alter_eq.
  rewrite (alter_as_insert _ _ task) by by eapply first_with_id_lookup.
  simpl. fold done.
  assert (<[i:=done]> (tasks s) !! i = Some done) as Hi.
  { apply list_lookup_insert_eq. apply (lookup_lt_Some _ _ task).
    by eapply first_with_id_lookup. }
  destruct (fs env); simpl; by rewrite ?Hi.
Qed.

(** C4. [task_done] replies not-found when no task has the id; on the
    task the lookup finds it replies already-done for status done and
    already-deleted for status deleted, changing nothing; for any other
    status it sets status to done and [completed_at] to the clock, and a
    second call on the same id then replies already-done and changes
    nothing, so [completed_at] keeps the time of the first call. *)
Theorem task_done_spec (env : Env) (s : State) (task_id : string) :
  (no_task_with_id (tasks s) task_id →
   run (task_done env task_id) s = (ErrNotFound, s)) ∧
  (∀ i task, first_with_id (tasks s) task_id i task →
     (Task.status task = "done" →
      run (task_done env task_id) s = (ErrAlreadyDone, s)) ∧
     (Task.status task = "deleted" →
      run (task_done env task_id) s = (ErrAlreadyDeleted, s)) ∧
     (Task.status task ≠ "done" → Task.status task ≠ "deleted" →
      let done := Task.set_completed_at (Some (utcnow env))
                    (Task.set_status "done" task) in
      let s' := saved env (<[i := done]> (tasks s)) s in
      run (task_done env task_id) s = (after_save env (TaskCompleted done), s') ∧
      Task.status done = "done" ∧
      Task.completed_at done = Some (utcnow env) ∧
      first_with_id (tasks s') task_id i done ∧
      ∀ env', run (task_done env' task_id) s' = (ErrAlreadyDone, s'))).
Proof.
  split; [apply task_done_not_found|].
  intros i task Hfirst. split; [|split].
  - by apply (task_done_already_done _ _ _ i task).
  - by apply (task_done_already_deleted _ _ _ i task).
  - intros Hnd Hndel done s'.
    assert (first_with_id (tasks s') task_id i done) as Hfirst'.
    { unfold s', saved; simpl.
      rewrite <- (alter_as_insert _ _ task (λ x, Task.set_completed_at
        (Some (utcnow env)) (Task.set_status "done" x)))
        by by eapply first_with_id_lookup.
      by apply (first_with_id_alter _ _ _ _ (λ x, Task.set_completed_at
        (Some (utcnow env)) (Task.set_status "done" x))). }
    split; [by apply task_done_completes|].
    split; [done|]. split; [done|]. split; [done|].
    intros env'. by apply (task_done_already_done _ _ _ i done).
Qed.

Lemma first_with_id_store : first_with_id (tasks store) "a1b2c3d4" 0 report.
Proof. repeat split. intros j other Hj. lia. Defined.

Lemma task_done_spec_witness :
  run (task_done env_ok "ffffffff") store = (ErrNotFound, store) ∧
  let done := Task.set_completed_at (Some "2024-02-02T10:00:00")
                (Task.set_status "done" report) in
  let s' := {| tasks := [done]; tasks_file := Json [done] |} in
  run (task_done env_ok "a1b2c3d4") store = (TaskCompleted done, s') ∧
  ∀ env', run (task_done env' "a1b2c3d4") s' = (ErrAlreadyDone, s').
Proof.
  split.
  - apply (task_done_spec env_ok store "ffffffff").
    intros task Htask. apply list_elem_of_singleton in Htask as ->. discriminate.
  - destruct (task_done_spec env_ok store "a1b2c3d4") as [_ H].
    destruct (H 0 report first_with_id_store) as (_ & _ & Hact).
    destruct Hact as (Hrun & _ & _ & _ & Hagain); [discriminate..|].
    split; [exact Hrun | exact Hagain].
Defined.

(** *** [task_delete] *)

Lemma task_delete_not_found env s task_id :
  no_task_with_id (tasks s) task_id →
  run (task_delete env task_id) s = (ErrNotFound, s).
Proof. intros H%find_task_None. run_handler. by rewrite H. Qed.

Lemma task_delete_already_deleted env s task_id i task :
  first_with_id (tasks s) task_id i task → Task.status task = "deleted" →
  run (task_delete env task_id) s = (ErrAlreadyDeleted, s).
Proof.
  intros Hfirst Hst. run_handler.
  rewrite (first_with_id_find _ _ _ _ Hfirst), (first_with_id_lookup _ _ _ _ Hfirst).
  by rewrite decide_True.
Qed.

Lemma task_delete_deletes env s task_id i task :
  first_with_id (tasks s) task_id i task → Task.status task ≠ "deleted" →
  let deleted := Task.set_deleted_at (Some (utcnow env))
                   (Task.set_status "deleted" task) in
  run (task_delete env task_id) s
  = (after_save env (TaskDeleted deleted),
     saved env (<[i := deleted]> (tasks s)) s).
Proof.
  intros Hfirst Hndel deleted. run_handler.
  rewrite (first_with_id_find _ _ _ _ Hfirst), (first_with_id_lookup _ _ _ _ Hfirst).
  rewrite decide_False by done.
  rewrite list_alter_alter_eq.
  rewrite (alter_as_insert _ _ task) by by eapply first_with_id_lookup.
  simpl. fold deleted.
  assert (<[i:=deleted]> (tasks s) !! i = Some deleted) as Hi.
  { apply list_lookup_insert_eq. apply (lookup_lt_Some _ _ task).
    by eapply first_with_id_lookup. }
  destruct (fs env); simpl; by rewrite ?Hi.
Qed.

(** C5. On the task the lookup finds, [task_delete] replies
    already-deleted when its status is deleted and changes nothing;
    otherwise, in particular from status active and from status done, it
    sets status to deleted and [deleted_at] to the clock at the task's own
    position, every other position and the length of the list staying as
    they were: the record is kept. *)
Theorem task_delete_spec (env : Env) (s : State) (task_id : string)
    (i : nat) (task : Task.t) :
  first_with_id (tasks s) task_id i task →
  (Task.status task = "deleted" →
   run (task_delete env task_id) s = (ErrAlreadyDeleted, s)) ∧
  (Task.status task ≠ "deleted" →
   let deleted := Task.set_deleted_at (Some (utcnow env))
                    (Task.set_status "deleted" task) in
   let s' := (run (task_delete env task_id) s).2 in
   (run (task_delete env task_id) s).1 = after_save env (TaskDeleted deleted) ∧
   tasks s' !! i = Some deleted ∧
   Task.status deleted = "deleted" ∧
   Task.deleted_at deleted = Some (utcnow env) ∧
   (∀ j, j ≠ i → tasks s' !! j = tasks s !! j) ∧
   length (tasks s') = length (tasks s)) ∧
  (Task.status task = "active" ∨ Task.status task = "done" →
   ∃ deleted, tasks (run (task_delete env task_id) s).2 !! i = Some deleted ∧
              Task.status deleted = "deleted" ∧
              Task.deleted_at deleted = Some (utcnow env)).
Proof.
  intros Hfirst. split; [|split].
  - by apply (task_delete_already_deleted _ _ _ i task).
  - intros Hndel deleted s'. unfold s'.
    rewrite (task_delete_deletes env s task_id i task) by done. simpl.
    fold deleted. repeat split.
    + apply list_lookup_insert_eq. apply (lookup_lt_Some _ _ task).
      by eapply first_with_id_lookup.
    + intros j Hj. by apply list_lookup_insert_ne.
    + apply length_insert.
  - intros Hst.
    assert (Task.status task ≠ "deleted") as Hndel
      by (destruct Hst as [-> | ->]; discriminate).
    rewrite (task_delete_deletes env s task_id i task) by done. simpl.
    exists (Task.set_deleted_at (Some (utcnow env))
              (Task.set_status "deleted" task)).
    split; [|by split].
    apply list_lookup_insert_eq. apply (lookup_lt_Some _ _ task).
    by eapply first_with_id_lookup.
Qed.

Lemma task_delete_spec_witness :
  let done := Task.set_completed_at (Some "2024-02-02T10:00:00")
                (Task.set_status "done" report) in
  let s := {| tasks := [done]; tasks_file := Json [done] |} in
  let s' := (run (task_delete env_ok "a1b2c3d4") s).2 in
  tasks s' !! 0 = Some (Task.set_deleted_at (Some "2024-02-02T10:00:00")
                          (Task.set_status "deleted" done)) ∧
  length (tasks s') = 1.
Proof.
  intros done s s'.
  assert (first_with_id (tasks s) "a1b2c3d4" 0 done) as Hfirst.
  { repeat split. intros j other Hj. lia. }
  destruct (task_delete_spec env_ok s "a1b2c3d4" 0 done Hfirst) as (_ & H & _).
  destruct H as (_ & Hi & _ & _ & _ & Hlen); [discriminate|].
  split; [exact Hi | exact Hlen].
Defined.

(** *** [task_add] *)

(** The record [task_add] builds once the due date is settled. *)
Lemma task_add_appends env s user_id title description due_date assignee :
  (∀ d, due_date = Some d → d ≠ "" → is_Some (Strptime.strptime d)) →
  run (task_add env user_id title description due_date assignee) s
  = let new_task :=
      Task.Build (substring 0 8 (uuid4 env)) title
        (default "" description)
        (if truthy due_date then due_date else None)
        assignee user_id (utcnow env) "active" None None in
    (after_save env (TaskCreated new_task),
     saved env (tasks s ++ [new_task]) s).
Proof.
  intros Hdue.
  assert ((match description with
           | Some d => if truthy description then d else ""
           | None => ""
           end) = default "" description) as Hdesc.
  { destruct description as [d|]; simpl; [|done]. by case_decide. }
  run_handler. rewrite Hdesc. clear Hdesc.
  destruct due_date as [d|]; simpl.
  - destruct (decide (d = "")) as [->|Hne]; simpl.
    + by destruct (fs env).
    + destruct (Hdue d eq_refl Hne) as [ymd ->]. simpl. by destruct (fs env).
  - by destruct (fs env).
Qed.

Lemma task_add_rejects env s user_id title description due assignee :
  due ≠ "" → Strptime.strptime due = None →
  run (task_add env user_id title description (Some due) assignee) s
  = (ErrInvalidDate, s).
Proof.
  intros Hne Hbad. run_handler. rewrite decide_False by done. by rewrite Hbad.
Qed.




(** *** [task_edit] *)

Lemma edit_prefix {A} (i : nat) (title description : option string)
    (assignee : option Z) (k : Handler A) (s : State) :
  bind (assign_if i title Task.set_title) (λ _,
    bind (assign_if i description Task.set_description) (λ _,
      bind (assign_if i assignee (λ a, Task.set_assignee_id (Some a))) (λ _, k))) s
  = k {| tasks := alter (early_writes title description assignee) i (tasks s);
         tasks_file := tasks_file s |}.
Proof.
  assert (∀ f g : Task.t → Task.t, (∀ x, f x = g x) →
            alter f i (tasks s) = alter g i (tasks s)) as Hext.
  { intros f g Hfg. by apply list_alter_ext. }
  destruct title, description, assignee; run_handler;
    rewrite ?list_alter_alter_eq.
  all: try (f_equal; f_equal; by apply Hext).
  rewrite list_alter_id by done. by destruct s.
Qed.

Lemma early_writes_id title description assignee task :
  Task.id (early_writes title description assignee task) = Task.id task.
Proof. by destruct title, description, assignee. Qed.

Lemma early_writes_due_date title description assignee task :
  Task.due_date (early_writes title description assignee task)
  = Task.due_date task.
Proof. by destruct title, description, assignee. Qed.

(** A malformed due date stops [task_edit] after the title, the
    description and the assignee have been written to the task. *)
Lemma task_edit_invalid_date env s task_id title description due assignee i task :
  first_with_id (tasks s) task_id i task →
  due ≠ "none" → Strptime.strptime due = None →
  run (task_edit env task_id title description (Some due) assignee) s
  = (ErrInvalidDate,
     {| tasks := <[i := early_writes title description assignee task]> (tasks s);
        tasks_file := tasks_file s |}).
Proof.
  intros Hfirst Hnone Hbad. unfold run, task_edit.
  unfold bind at 1, gets at 1. simpl.
  rewrite (first_with_id_find _ _ _ _ Hfirst), edit_prefix.
  run_handler. rewrite list_lookup_alter_eq, (first_with_id_lookup _ _ _ _ Hfirst).
  simpl. rewrite decide_False by done. rewrite Hbad.
  by rewrite (alter_as_insert _ _ task) by by eapply first_with_id_lookup.
Qed.

(** An accepted request writes all four fields and saves. *)
Lemma task_edit_edits env s task_id title description due_date assignee i task :
  first_with_id (tasks s) task_id i task →
  (∀ d, due_date = Some d → d ≠ "none" → is_Some (Strptime.strptime d)) →
  let edited :=
    Task.set_due_date (edited_due_date due_date task)
      (early_writes title description assignee task) in
  run (task_edit env task_id title description due_date assignee) s
  = (after_save env (TaskEdited edited), saved env (<[i := edited]> (tasks s)) s).
Proof.
  intros Hfirst Hdue edited. unfold run, task_edit.
  unfold bind at 1, gets at 1. simpl.
  rewrite (first_with_id_find _ _ _ _ Hfirst), edit_prefix.
  pose proof (first_with_id_lookup _ _ _ _ Hfirst) as Hi.
  assert (i < length (tasks s)) as Hlt by by eapply lookup_lt_Some.
  assert (∀ v, alter (Task.set_due_date v)  i
                 (alter (early_writes title description assignee) i (tasks s))
               = <[i := Task.set_due_date v
                          (early_writes title description assignee task)]> (tasks s))
    as Halter.
  { intros v. rewrite list_alter_alter_eq. by rewrite (alter_as_insert _ _ task). }
  run_handler. rewrite list_lookup_alter_eq, Hi. simpl.
  unfold edited, edited_due_date.
  destruct due_date as [d|]; simpl.
  - destruct (decide (d = "none")) as [->|Hne]; simpl.
    + rewrite Halter. destruct (fs env); simpl;
        by rewrite ?list_lookup_insert_eq by done.
    + destruct (Hdue d eq_refl Hne) as [ymd ->]. simpl.
      rewrite Halter. destruct (fs env); simpl;
        by rewrite ?list_lookup_insert_eq by done.
  - rewrite early_writes_due_date, Halter. destruct (fs env); simpl;
      by rewrite ?list_lookup_insert_eq by done.
Qed.

Lemma task_edit_not_found env s task_id title description due_date assignee :
  no_task_with_id (tasks s) task_id →
  run (task_edit env task_id title description due_date assignee) s
  = (ErrNotFound, s).
Proof.
  intros H%find_task_None. unfold run, task_edit.
  unfold bind at 1, gets at 1. simpl. by rewrite H.
Qed.

(** C1. Code defect: [task_edit] writes the title, the description and the
    assignee before it validates the due date.  On the sample store, an
    edit that supplies a new title together with the malformed date
    2024-13-40 replies invalid-date, yet the task in memory now carries the
    new title; nothing was saved, so memory and file disagree. *)
Theorem task_edit_bad_date_partial_write :
  run (task_edit env_ok "a1b2c3d4" (Some "Draft") None (Some "2024-13-40") None)
      store
  = (ErrInvalidDate,
     {| tasks := [Task.set_title "Draft" report]; tasks_file := Json [report] |})
  ∧ Task.set_title "Draft" report ≠ report.
Proof. split; [reflexivity | discriminate]. Qed.

(** C7. On a task the lookup finds, whatever its due date was, an edit
    with due date "none" is accepted: the task is rewritten with
    [due_date] unset (and with the title, description and assignee the
    call supplied), it stays the task found under that id, and the reply
    is the confirmation unless the save raised. *)
Theorem task_edit_none_clears (env : Env) (s : State) (task_id : string)
    (title description : option string) (assignee : option Z)
    (i : nat) (task : Task.t) :
  first_with_id (tasks s) task_id i task →
  let edited :=
    Task.set_due_date None (early_writes title description assignee task) in
  let s' := saved env (<[i := edited]> (tasks s)) s in
  run (task_edit env task_id title description (Some "none") assignee) s
  = (after_save env (TaskEdited edited), s') ∧
  first_with_id (tasks s') task_id i edited ∧
  Task.due_date edited = None.
Proof.
  intros Hfirst edited s'. split; [|split; [|done]].
  - apply (task_edit_edits env s task_id title description (Some "none")
             assignee i task Hfirst).
    intros d [= <-] Hd. done.
  - unfold s', saved; simpl.
    rewrite <- (alter_as_insert _ _ task (λ x, Task.set_due_date None
      (early_writes title description assignee x)))
      by by eapply first_with_id_lookup.
    apply (first_with_id_alter _ _ _ _ (λ x, Task.set_due_date None
      (early_writes title description assignee x))); [|done].
    intros x. simpl. apply early_writes_id.
Qed.

Lemma task_edit_none_clears_witness :
  run (task_edit env_ok "a1b2c3d4" None None (Some "none") None) store
  = (TaskEdited (Task.set_due_date None report),
     {| tasks := [Task.set_due_date None report];
        tasks_file := Json [Task.set_due_date None report] |}).
Proof.
  apply (task_edit_none_clears env_ok store "a1b2c3d4" None None None 0 report
           first_with_id_store).
Defined.

(** C10, as stated, fails: an edit with the empty string as due date on
    an id no task carries replies not-found, not invalid-date. *)
Lemma task_edit_empty_date_unknown_id :
  ¬ (∀ env s task_id title description assignee,
       (run (task_edit env task_id title description (Some "") assignee) s).1
       = ErrInvalidDate).
Proof. intros H. specialize (H env_ok store "ffffffff" None None None). discriminate. Qed.

(** C10, amended. [task_add] with the empty string as due date behaves as
    with no due date: nothing is validated and the task is appended with
    [due_date] unset.  [task_edit] with the empty string as due date, on an
    id the lookup finds, runs the date parser, which rejects the empty
    string, and replies invalid-date; on an id no task carries it replies
    not-found. *)
Theorem empty_due_date_asymmetry (env : Env) (s : State) :
  (∀ user_id title description assignee,
     let new_task :=
       Task.Build (substring 0 8 (uuid4 env)) title (default "" description)
                  None assignee user_id (utcnow env) "active" None None in
     run (task_add env user_id title description (Some "") assignee) s
     = (after_save env (TaskCreated new_task),
        saved env (tasks s ++ [new_task]) s) ∧
     run (task_add env user_id title description (Some "") assignee) s
     = run (task_add env user_id title description None assignee) s) ∧
  (∀ task_id title description assignee,
     Strptime.strptime "" = None ∧
     (no_task_with_id (tasks s) task_id →
      (run (task_edit env task_id title description (Some "") assignee) s).1
      = ErrNotFound) ∧
     (∀ i task, first_with_id (tasks s) task_id i task →
      (run (task_edit env task_id title description (Some "") assignee) s).1
      = ErrInvalidDate)).
Proof.
  split.
  - intros user_id title description assignee new_task. split.
    + apply (task_add_appends env s user_id title description (Some "") assignee).
      intros d [= <-] Hd. done.
    + rewrite (task_add_appends env s user_id title description (Some "") assignee)
        by (intros d [= <-] Hd; done).
      by rewrite (task_add_appends env s user_id title description None assignee).
  - intros task_id title description assignee. split; [done|]. split.
    + intros Habs. by rewrite task_edit_not_found.
    + intros i task Hfirst.
      by rewrite (task_edit_invalid_date env s task_id title description ""
                    assignee i task).
Qed.

Lemma empty_due_date_asymmetry_witness :
  (run (task_edit env_ok "ffffffff" None None (Some "") None) store).1 = ErrNotFound ∧
  (run (task_edit env_ok "a1b2c3d4" None None (Some "") None) store).1 = ErrInvalidDate.
Proof.
  destruct (empty_due_date_asymmetry env_ok store) as [_ H].
  destruct (H "ffffffff" None None None) as (_ & Habs & _).
  destruct (H "a1b2c3d4" None None None) as (_ & _ & Hpres).
  split.
  - apply Habs. intros task Htask.
    apply list_elem_of_singleton in Htask as ->. discriminate.
  - apply (Hpres 0 report first_with_id_store).
Defined.

(** ** Persistence *)

(** C2. Code defect: [save_json] catches every exception raised by [open]
    and [json.dump], prints it and returns, so a failed write never reaches
    the [except] clause of the handler.  For either failure, [task_add]
    keeps the new task in memory and replies with the confirmation, not
    with the save error, while the file does not hold the task. *)
Theorem task_add_write_failure_unreported (s : State) (uuid now : string)
    (user_id : Z) (title : string) (description : option string)
    (assignee : option Z) :
  let new_task :=
    Task.Build (substring 0 8 uuid) title (default "" description) None
               assignee user_id now "active" None None in
  (save_json OpenRaises (tasks s ++ [new_task])%list (tasks_file s)).1 = Returned ∧
  (save_json DumpRaises (tasks s ++ [new_task])%list (tasks_file s)).1 = Returned ∧
  run (task_add {| uuid4 := uuid; utcnow := now; fs := OpenRaises |}
                user_id title description None assignee) s
  = (TaskCreated new_task,
     {| tasks := tasks s ++ [new_task]; tasks_file := tasks_file s |}) ∧
  run (task_add {| uuid4 := uuid; utcnow := now; fs := DumpRaises |}
                user_id title description None assignee) s
  = (TaskCreated new_task,
     {| tasks := tasks s ++ [new_task]; tasks_file := Unreadable |}).
Proof.
  intros new_task. split; [done|]. split; [done|]. split.
  - by rewrite task_add_appends.
  - by rewrite task_add_appends.
Qed.

(** When [os.makedirs] raises, the exception does reach the handler: it
    replies with the save error and the appended task stays in memory. *)
Lemma task_add_makedirs_failure (s : State) (uuid now : string) (user_id : Z)
    (title : string) (description : option string) (assignee : option Z) :
  let new_task :=
    Task.Build (substring 0 8 uuid) title (default "" description) None
               assignee user_id now "active" None None in
  run (task_add {| uuid4 := uuid; utcnow := now; fs := MakedirsRaises |}
                user_id title description None assignee) s
  = (ErrSave, {| tasks := tasks s ++ [new_task]; tasks_file := tasks_file s |}).
Proof. intros new_task. by rewrite task_add_appends. Qed.

(** ** Identifier uniqueness *)

Lemma ids_unique_NoDup (l : list Task.t) :
  ids_unique l ↔ NoDup (Task.id <$> l).
Proof.
  unfold ids_unique. rewrite NoDup_alt. split.
  - intros H i j x Hi Hj. rewrite list_lookup_fmap in Hi, Hj.
    destruct (l !! i) as [ti|] eqn:Eti; [|done].
    destruct (l !! j) as [tj|] eqn:Etj; [|done].
    simplify_eq/=. by apply (H i j ti tj).
  - intros H i j ti tj Hi Hj Hid. apply (H i j (Task.id ti)).
    + by rewrite list_lookup_fmap, Hi.
    + by rewrite list_lookup_fmap, Hj, Hid.
Qed.

(** One [task_add] either leaves the list alone or appends one task whose
    id is the first eight characters of the random identifier. *)
Lemma add_call_tasks (c : AddCall) (s : State) :
  tasks (run (add_call c) s).2 = tasks s ∨
  ∃ task, tasks (run (add_call c) s).2 = (tasks s ++ [task])%list ∧
          Task.id task = drawn_id c.
Proof.
  unfold add_call, drawn_id. destruct c as [env user title descr due assignee].
  simpl. destruct due as [d|].
  - destruct (decide (d = "")) as [->|Hne].
    + right. rewrite task_add_appends by (intros ? [= <-] ?; done).
      simpl. eauto.
    + destruct (Strptime.strptime d) as [ymd|] eqn:Ed.
      * right. rewrite task_add_appends; [simpl; eauto|].
        intros ? [= <-] _. by rewrite Ed.
      * left. by rewrite task_add_rejects.
  - right. rewrite task_add_appends by done. simpl. eauto.
Qed.

Lemma run_adds_cons c calls s :
  run_adds (c :: calls) s = run_adds calls (run (add_call c) s).2.
Proof. done. Qed.

(** Uniqueness does not hold for every outcome of the random source. *)
Lemma run_adds_ids_collide :
  ¬ (∀ calls, ids_unique (tasks (run_adds calls (init Missing)))).
Proof.
  intros H. specialize (H [call_a; call_b] 0 1 _ _ eq_refl eq_refl eq_refl).
  discriminate.
Qed.

(** What does hold: starting from a list with pairwise distinct ids, a
    sequence of invocations leaves pairwise distinct ids as long as the
    eight-character prefixes drawn are pairwise distinct and differ from
    every id already in the list. *)
Theorem run_adds_ids_unique (calls : list AddCall) (s : State) :
  ids_unique (tasks s) →
  NoDup (drawn_id <$> calls) →
  (∀ c task, c ∈ calls → task ∈ tasks s → Task.id task ≠ drawn_id c) →
  ids_unique (tasks (run_adds calls s)).
Proof.
  revert s. induction calls as [|c calls IH]; intros s Huniq Hdrawn Hfresh.
  - done.
  - rewrite run_adds_cons. apply NoDup_cons in Hdrawn as [Hc Hdrawn].
    destruct (add_call_tasks c s) as [Hsame | (task & Happ & Hid)].
    + apply IH; rewrite ?Hsame; [done..|].
      intros c' task' Hc'. apply Hfresh. by right.
    + apply IH; rewrite ?Happ; [|done|].
      * apply ids_unique_NoDup. rewrite fmap_app. apply NoDup_app.
        split; [by apply ids_unique_NoDup|]. split; [|apply NoDup_singleton].
        intros x Hx Hx'. apply list_elem_of_singleton in Hx' as ->.
        apply list_elem_of_fmap in Hx as (task' & Hid' & Htask').
        apply (Hfresh c task'); [left | done | congruence].
      * intros c' task' Hc' Htask'.
        apply elem_of_app in Htask' as [Htask' | Htask'].
        { apply (Hfresh c' task'); [by right | done]. }
        apply list_elem_of_singleton in Htask' as ->. rewrite Hid.
        intros Heq. apply Hc. rewrite Heq. apply list_elem_of_fmap. eauto.
Qed.

Lemma run_adds_ids_unique_witness :
  ids_unique (tasks (run_adds [call_a] store)).
Proof.
  apply run_adds_ids_unique.
  - intros i j ti tj Hi Hj _.
    apply lookup_lt_Some in Hi, Hj. simpl in *. lia.
  - apply NoDup_singleton.
  - intros c task Hc Htask.
    apply list_elem_of_singleton in Hc as ->.
    apply list_elem_of_singleton in Htask as ->. discriminate.
Defined.

(** C3. Code defect: [task_add] takes the first eight characters of the
    random identifier as the id, which its comment calls unique, and never
    compares it with the ids in the list.  Two invocations on an empty
    store whose identifiers differ but share their first eight characters
    leave two different tasks that both have the id deadbeef, so the ids
    of the list are not pairwise distinct. *)
Theorem task_add_duplicate_id :
  uuid4 (call_env call_a) ≠ uuid4 (call_env call_b) ∧
  tasks (run_adds [call_a; call_b] (init Missing))
  = [Task.Build "deadbeef" "Write report" "" None None 7
                "2024-02-02T10:00:00" "active" None None;
     Task.Build "deadbeef" "Review report" "" None None 8
                "2024-02-03T11:30:00" "active" None None] ∧
  ¬ ids_unique (tasks (run_adds [call_a; call_b] (init Missing))).
Proof.
  split; [discriminate|]. split; [reflexivity|].
  intros H. specialize (H 0 1 _ _ eq_refl eq_refl eq_refl). discriminate.
Qed.

(** ** [task_list] *)

Lemma active_tasks_filter (l : list Task.t) :
  active_tasks l = filter (λ task, Task.status task = "active") l.
Proof.
  induction l as [|task rest IH]; [done|]. simpl. rewrite filter_cons.
  destruct (decide (Task.status task = "active")); by rewrite IH.
Qed.

Lemma sublist_into_filter {A} (P : A → Prop) `{!∀ x, Decision (P x)}
    (l' l : list A) :
  l' `sublist_of` l → Forall P l' → l' `sublist_of` filter P l.
Proof.
  induction 1 as [|x l1 l2 Hsub IH|x l1 l2 Hsub IH]; intros Hall.
  - done.
  - apply Forall_cons in Hall as [Hx Hall].
    rewrite filter_cons_True by done. constructor. by apply IH.
  - rewrite filter_cons. destruct (decide (P x)); [constructor|]; by apply IH.
Qed.

(** C8. The list comprehension of [task_list] selects exactly the active
    tasks, in list order: its result is a subsequence of the task list, all
    of its tasks have status active, and every subsequence of the task list
    made of active tasks only is a subsequence of it; so a task is listed if
    and only if it is in the list with status active, and a task whose
    status is done or deleted is not listed. *)
Theorem active_tasks_spec (l : list Task.t) :
  active_tasks l `sublist_of` l ∧
  Forall (λ task, Task.status task = "active") (active_tasks l) ∧
  (∀ l', l' `sublist_of` l →
         Forall (λ task, Task.status task = "active") l' →
         l' `sublist_of` active_tasks l) ∧
  (∀ task, task ∈ active_tasks l ↔ task ∈ l ∧ Task.status task = "active") ∧
  (∀ task, Task.status task = "done" ∨ Task.status task = "deleted" →
           task ∉ active_tasks l).
Proof.
  rewrite active_tasks_filter.
  split; [|split; [|split; [|split; [intros task; split|]]]].
  - apply sublist_filter.
  - apply Forall_forall. intros task Htask.
    by apply list_elem_of_filter in Htask as [? _].
  - intros l'. apply sublist_into_filter.
  - intros Hin. apply list_elem_of_filter in Hin as [? ?]. by split.
  - intros [? ?]. by apply list_elem_of_filter.
  - intros task Hst Hin. apply list_elem_of_filter in Hin as [Hact _].
    destruct Hst as [Hst | Hst]; rewrite Hst in Hact; discriminate.
Qed.

Lemma active_tasks_spec_witness :
  [report] `sublist_of`
    active_tasks [Task.set_status "done" report; report;
                  Task.set_status "deleted" report].
Proof.
  destruct (active_tasks_spec [Task.set_status "done" report; report;
                               Task.set_status "deleted" report])
    as (_ & _ & Hmax & _).
  apply Hmax.
  - apply sublist_cons, sublist_skip, sublist_nil_l.
  - by apply Forall_singleton.
Defined.

(** ** [AdminCog] *)

(** C9. [_get_guild_config] returns the record stored under
    [str(guild_id)] when there is one and leaves the cog's state alone;
    otherwise it returns an empty record and stores it under that key,
    changing no other key.  In both cases the record returned is the one
    now in the map and the config file is as it was; [config_show], which
    only reads through [_get_guild_config], does not touch the file either.
    The file receives the map, with the guild's record in it, when a later
    command saves successfully. *)
Theorem get_guild_config_spec (guild_id : Z) (s : AdminCog.State) :
  let key : string := pretty guild_id in
  let cfg := (AdminCog._get_guild_config guild_id s).1 in
  let s' := (AdminCog._get_guild_config guild_id s).2 in
  (∀ c, AdminCog.config_data s !! key = Some c → cfg = c ∧ s' = s) ∧
  (AdminCog.config_data s !! key = None →
   cfg = ∅ ∧ AdminCog.config_data s' = <[key := ∅]> (AdminCog.config_data s)) ∧
  AdminCog.config_data s' !! key = Some cfg ∧
  (∀ other, other ≠ key →
            AdminCog.config_data s' !! other = AdminCog.config_data s !! other) ∧
  AdminCog.config_file s' = AdminCog.config_file s ∧
  AdminCog.config_file (AdminCog.config_show (Some guild_id) s).2
  = AdminCog.config_file s ∧
  (∀ key' ok channel,
     let s'' := (AdminCog.config_set key' ok WriteOk (Some guild_id) channel s).2 in
     AdminCog.config_file s'' = Json (AdminCog.config_data s'') ∧
     AdminCog.config_data s'' !! key = Some (<[key' := channel]> cfg)).
Proof.
  intros key cfg s'. unfold cfg, s', AdminCog.config_show, AdminCog.config_set,
    AdminCog._get_guild_config, AdminCog.set_key. fold key.
  destruct (AdminCog.config_data s !! key) as [c|] eqn:Hkey; simpl.
  - rewrite !lookup_total_alt, Hkey. simpl.
    split; [|split; [|split; [|split; [|split; [|split]]]]]; try done.
    + by intros c' [= <-].
    + intros key' ok channel. split; [done|]. by rewrite lookup_insert_eq.
  - rewrite !lookup_total_alt, lookup_insert_eq. simpl.
    split; [|split; [|split; [|split; [|split; [|split]]]]]; try done.
    + intros other Hne. by rewrite lookup_insert_ne.
    + intros key' ok channel. split; [done|]. by rewrite lookup_insert_eq.
Qed.

Lemma get_guild_config_spec_witness :
  (AdminCog._get_guild_config 42 (AdminCog.init Missing)).1 = ∅ ∧
  AdminCog.config_data (AdminCog._get_guild_config 42 (AdminCog.init Missing)).2
  = <["42" := ∅]> ∅.
Proof.
  destruct (get_guild_config_spec 42 (AdminCog.init Missing))
    as (_ & Hnew & _).
  apply Hnew. reflexivity.
Defined.

(** ** The lifecycle scenario

    Create "Write report" due 2024-01-15, complete it, complete it again,
    then delete it. *)
Example lifecycle_scenario :
  let created :=
    Task.Build "deadbeef" "Write report" "" (Some "2024-01-15") None 7
               "2024-02-02T10:00:00" "active" None None in
  let day2 := {| uuid4 := ""; utcnow := "2024-02-03T08:00:00"; fs := WriteOk |} in
  let day3 := {| uuid4 := ""; utcnow := "2024-02-04T08:00:00"; fs := WriteOk |} in
  let day4 := {| uuid4 := ""; utcnow := "2024-02-05T08:00:00"; fs := WriteOk |} in
  let done := Task.set_completed_at (Some "2024-02-03T08:00:00")
                (Task.set_status "done" created) in
  let deleted := Task.set_deleted_at (Some "2024-02-05T08:00:00")
                   (Task.set_status "deleted" done) in
  let '(r1, s1) := run (task_add env_ok 7 "Write report" None
                          (Some "2024-01-15") None) (init Missing) in
  let '(r2, s2) := run (task_done day2 "deadbeef") s1 in
  let '(r3, s3) := run (task_done day3 "deadbeef") s2 in
  let '(r4, s4) := run (task_delete day4 "deadbeef") s3 in
  r1 = TaskCreated created ∧ r2 = TaskCompleted done ∧ r3 = ErrAlreadyDone ∧
  r4 = TaskDeleted deleted ∧ s3 = s2 ∧
  s4 = {| tasks := [deleted]; tasks_file := Json [deleted] |}.
Proof. vm_compute. repeat split. Qed.

(** * Invocations one after the other *)

Lemma steps_cons c cs s : steps (c :: cs) s = steps cs (step c s).
Proof. done. Qed.

Lemma steps_app cs1 cs2 s : steps (cs1 ++ cs2) s = steps cs2 (steps cs1 s).
Proof. apply foldl_app. Qed.

Lemma set_due_date_same (task : Task.t) :
  Task.set_due_date (Task.due_date task) task = task.
Proof. by destruct task. Qed.

Lemma task_list_run (s : State) :
  ∃ r, quiet r ∧ run task_list s = (r, s).
Proof.
  run_handler. destruct (active_tasks (tasks s)); eexists; split; try done;
    constructor.
Qed.

(** Every invocation takes one of the courses of [exec_case]. *)
Lemma exec_classify (c : Command) (s : State) : exec_case c s (exec c s).
Proof.
  destruct c as [call| |env task_id|env task_id
                |env task_id title description due_date assignee|task_id];
    simpl.
  - (* task_add *)
    destruct call as [env user title descr due assignee]. unfold add_call. simpl.
    assert (∀ d', due = d' → truthy d' = false ∨
              (∃ d, d' = Some d ∧ d ≠ "")) as Htruthy.
    { intros d' <-. destruct due as [d|]; [|by left]. simpl.
      destruct (decide (d = "")); [by left | right; eauto]. }
    destruct (Htruthy due eq_refl) as [Hfalse | (d & -> & Hne)].
    + rewrite task_add_appends.
      * rewrite Hfalse.
        apply (case_added _ _ {| call_env := env; call_user := user;
                 call_title := title; call_description := descr;
                 call_due_date := due; call_assignee := assignee |});
          [done | | done]. by repeat split.
      * intros d -> Hne. simpl in Hfalse. by rewrite decide_False in Hfalse.
    + destruct (Strptime.strptime d) as [ymd|] eqn:Ed.
      * rewrite task_add_appends by (intros ? [= <-] _; by rewrite Ed).
        simpl. rewrite decide_False by done.
        apply (case_added _ _ {| call_env := env; call_user := user;
                 call_title := title; call_description := descr;
                 call_due_date := Some d; call_assignee := assignee |});
          [done | | done].
        repeat split. intros d' [= <-]. by rewrite Ed.
      * rewrite task_add_rejects by done. by eapply case_add_rejected.
  - (* task_list *)
    destruct (task_list_run s) as (r & Hq & ->). by apply case_quiet.
  - (* task_done *)
    destruct (find_task task_id (tasks s)) as [i|] eqn:Hfind.
    + apply find_task_Some in Hfind as Hfirst. destruct Hfirst as [task Hfirst].
      destruct (decide (Task.status task = "done")) as [Hd|Hnd].
      { rewrite (task_done_already_done env s task_id i task) by done.
        apply case_quiet. constructor. }
      destruct (decide (Task.status task = "deleted")) as [Hdel|Hndel].
      { rewrite (task_done_already_deleted env s task_id i task) by done.
        apply case_quiet. constructor. }
      rewrite (task_done_completes env s task_id i task) by done.
      apply (case_changed _ _ env i task);
        [done | done | apply Hfirst | by constructor | constructor].
    + apply find_task_None in Hfind. rewrite task_done_not_found by done.
      apply case_quiet. constructor.
  - (* task_delete *)
    destruct (find_task task_id (tasks s)) as [i|] eqn:Hfind.
    + apply find_task_Some in Hfind as Hfirst. destruct Hfirst as [task Hfirst].
      destruct (decide (Task.status task = "deleted")) as [Hdel|Hndel].
      { rewrite (task_delete_already_deleted env s task_id i task) by done.
        apply case_quiet. constructor. }
      rewrite (task_delete_deletes env s task_id i task) by done.
      apply (case_changed _ _ env i task);
        [done | done | apply Hfirst | by constructor | constructor].
    + apply find_task_None in Hfind. rewrite task_delete_not_found by done.
      apply case_quiet. constructor.
  - (* task_edit *)
    destruct (find_task task_id (tasks s)) as [i|] eqn:Hfind.
    + apply find_task_Some in Hfind as Hfirst. destruct Hfirst as [task Hfirst].
      assert (tasks s !! i = Some task) as Hi by apply Hfirst.
      destruct due_date as [d|].
      * destruct (decide (d = "none")) as [->|Hnone].
        { rewrite (task_edit_edits env s task_id title description
                     (Some "none") assignee i task) by (try done; by intros ? [= <-]).
          apply (case_changed _ _ env i task); try done; constructor.
          right. by left. }
        destruct (Strptime.strptime d) as [ymd|] eqn:Ed.
        { rewrite (task_edit_edits env s task_id title description
                     (Some d) assignee i task)
            by (try done; intros ? [= <-] _; by rewrite Ed).
          apply (case_changed _ _ env i task); try done; [|constructor].
          unfold edited_due_date. rewrite decide_False by done.
          constructor. right. right. exists d. by rewrite Ed. }
        rewrite (task_edit_invalid_date env s task_id title description d
                   assignee i task) by done.
        apply case_edit_rejected; eauto.
      * rewrite (task_edit_edits env s task_id title description None
                   assignee i task) by done.
        apply (case_changed _ _ env i task); try done; constructor.
        by left.
    + apply find_task_None in Hfind. rewrite task_edit_not_found by done.
      apply case_quiet. constructor.
  - (* task_detail *)
    unfold task_detail, bind, gets, reply, ret, deref. simpl.
    destruct (find_task task_id (tasks s)) as [i|] eqn:Hfind.
    + apply find_task_Some in Hfind as Hfirst. destruct Hfirst as [task Hfirst].
      rewrite (first_with_id_lookup _ _ _ _ Hfirst).
      assert (Task.id task = task_id) as <- by apply Hfirst.
      by eapply case_detail.
    + apply case_quiet. constructor.
Qed.

Lemma early_writes_as_change title description assignee task :
  task_change task (early_writes title description assignee task).
Proof.
  rewrite <- (set_due_date_same (early_writes title description assignee task)).
  rewrite early_writes_due_date. constructor. by left.
Qed.

(** What one invocation does to the list: nothing, one record appended, or
    the record it addresses rewritten in place. *)
Lemma step_tasks_shape (c : Command) (s : State) :
  tasks (step c s) = tasks s ∨
  (∃ call new, c = CmdAdd call ∧ fresh_task new ∧ Task.id new = drawn_id call ∧
               tasks (step c s) = (tasks s ++ [new])%list) ∨
  (∃ i task task', cmd_target c s = Some i ∧ tasks s !! i = Some task ∧
                   task_change task task' ∧
                   tasks (step c s) = <[i := task']> (tasks s)).
Proof.
  unfold step. destruct (exec_classify c s); simpl.
  - by left.
  - by left.
  - by left.
  - right. left. eauto 10.
  - right. right. eauto 10.
  - right. right. eauto 10 using early_writes_as_change.
Qed.

Lemma task_change_id task task' :
  task_change task task' → Task.id task' = Task.id task.
Proof. destruct 1; simpl; [done | done | apply early_writes_id]. Qed.

Lemma early_writes_keeps title description assignee task :
  Task.status (early_writes title description assignee task) = Task.status task ∧
  Task.completed_at (early_writes title description assignee task)
  = Task.completed_at task ∧
  Task.deleted_at (early_writes title description assignee task)
  = Task.deleted_at task ∧
  Task.creator_id (early_writes title description assignee task)
  = Task.creator_id task ∧
  Task.created_at (early_writes title description assignee task)
  = Task.created_at task.
Proof. by destruct title, description, assignee. Qed.

(** A property of single records that new records have and that the
    rewrites keep holds of every record after any invocations. *)
Lemma steps_Forall (P : Task.t → Prop) :
  (∀ new, fresh_task new → P new) →
  (∀ task task', task_change task task' → P task → P task') →
  ∀ cs s, Forall P (tasks s) → Forall P (tasks (steps cs s)).
Proof.
  intros Hnew Hchange cs. induction cs as [|c cs IH]; intros s Hall; [done|].
  rewrite steps_cons. apply IH.
  destruct (step_tasks_shape c s)
    as [-> | [(call & new & _ & Hfresh & _ & ->)
           | (i & task & task' & _ & Hi & Hch & ->)]].
  - done.
  - apply Forall_app. split; [done|]. apply Forall_singleton. by apply Hnew.
  - apply Forall_insert; [done|]. apply (Hchange task); [done|].
    by eapply (Forall_lookup_1 P).
Qed.

(** A reflexive and transitive relation that the rewrites respect relates
    every record to what stands at its position after any invocations. *)
Lemma steps_lookup_rel (R : Task.t → Task.t → Prop) :
  (∀ task, R task task) →
  (∀ a b c, R a b → R b c → R a c) →
  (∀ task task', task_change task task' → R task task') →
  ∀ cs s i task, tasks s !! i = Some task →
                 ∃ task', tasks (steps cs s) !! i = Some task' ∧ R task task'.
Proof.
  intros Hrefl Htrans Hchange cs.
  induction cs as [|c cs IH]; intros s i task Hi; [by exists task|].
  rewrite steps_cons.
  assert (∃ mid, tasks (step c s) !! i = Some mid ∧ R task mid)
    as (mid & Hmid & HR).
  { destruct (step_tasks_shape c s)
      as [-> | [(call & new & _ & _ & _ & ->)
             | (j & old & old' & _ & Hj & Hch & ->)]].
    - by exists task.
    - exists task. split; [|done]. by apply lookup_app_l_Some.
    - destruct (decide (j = i)) as [->|Hne].
      + exists old'. split.
        * apply list_lookup_insert_eq. by eapply lookup_lt_Some.
        * simplify_eq. by apply Hchange.
      + exists task. by rewrite list_lookup_insert_ne. }
  destruct (IH (step c s) i mid Hmid) as (task' & Htask' & HR').
  exists task'. split; [done|]. by eapply Htrans.
Qed.

(** ** What no sequence of invocations does *)

(** X1. No invocation removes or moves a record or rewrites its identity:
    whatever commands run, the record at a position is still at that
    position, with the same id, creator and creation time. *)
Theorem steps_keep_records (cs : list Command) (s : State) (i : nat)
    (task : Task.t) :
  tasks s !! i = Some task →
  ∃ task', tasks (steps cs s) !! i = Some task' ∧
           Task.id task' = Task.id task ∧
           Task.creator_id task' = Task.creator_id task ∧
           Task.created_at task' = Task.created_at task.
Proof.
  apply (steps_lookup_rel (λ a b, Task.id b = Task.id a ∧
           Task.creator_id b = Task.creator_id a ∧
           Task.created_at b = Task.created_at a)).
  - done.
  - intros a b c (-> & -> & ->) (-> & -> & ->). done.
  - intros a b Hch.
    destruct Hch as [now a|now a|title description assignee due a Hdue]; simpl;
      try done.
    pose proof (early_writes_keeps title description assignee a)
      as (_ & _ & _ & -> & ->).
    by rewrite early_writes_id.
Qed.

(** X2. A status never goes back.  Once a record is done, every later
    state has it done or deleted with the completion time it had; once it
    is deleted, it stays deleted with the same completion and deletion
    times, whatever commands run. *)
Theorem steps_no_resurrection (cs : list Command) (s : State) (i : nat)
    (task : Task.t) :
  tasks s !! i = Some task →
  ∃ task', tasks (steps cs s) !! i = Some task' ∧
    (Task.status task = "done" →
     (Task.status task' = "done" ∨ Task.status task' = "deleted") ∧
     Task.completed_at task' = Task.completed_at task) ∧
    (Task.status task = "deleted" →
     Task.status task' = "deleted" ∧
     Task.completed_at task' = Task.completed_at task ∧
     Task.deleted_at task' = Task.deleted_at task).
Proof.
  apply (steps_lookup_rel (λ a b,
    (Task.status a = "done" →
     (Task.status b = "done" ∨ Task.status b = "deleted") ∧
     Task.completed_at b = Task.completed_at a) ∧
    (Task.status a = "deleted" →
     Task.status b = "deleted" ∧
     Task.completed_at b = Task.completed_at a ∧
     Task.deleted_at b = Task.deleted_at a))).
  - intros a. split; [by auto | done].
  - intros a b c [Hab1 Hab2] [Hbc1 Hbc2]. split.
    + intros Ha. destruct (Hab1 Ha) as [[Hb | Hb] Hcab].
      * destruct (Hbc1 Hb) as [Hc Hcbc]. split; [done | congruence].
      * destruct (Hbc2 Hb) as (Hc & Hcbc & _). split; [by right | congruence].
    + intros Ha. destruct (Hab2 Ha) as (Hb & Hcab & Hdab).
      destruct (Hbc2 Hb) as (Hc & Hcbc & Hdbc).
      split; [done|]. split; congruence.
  - intros a b Hch.
    destruct Hch as [now a Hnd Hndel|now a Hndel
                    |title description assignee due a Hdue]; simpl.
    + split; intros; done.
    + split; [|intros; done]. intros _. split; [by right | done].
    + pose proof (early_writes_keeps title description assignee a)
        as (-> & -> & -> & _). split; [by auto | done].
Qed.

Lemma task_change_lifecycle_ok task task' :
  task_change task task' → lifecycle_ok task → lifecycle_ok task'.
Proof.
  unfold lifecycle_ok.
  destruct 1 as [now task Hnd Hndel|now task Hndel
                |title description assignee due task Hdue]; simpl.
  - intros [(_ & Hc & Hd) | [(? & _) | (? & _)]]; [|done..].
    right. left. by rewrite Hd.
  - intros [(_ & _ & _) | [(_ & _ & _) | (? & _)]]; [| |done];
      right; right; done.
  - by pose proof (early_writes_keeps title description assignee task)
      as (-> & -> & -> & _).
Qed.

(** X3. The three lifecycle fields stay consistent.  If every record is
    active without completion and deletion times, done with a completion
    time and no deletion time, or deleted with a deletion time, then the
    same holds of every record after any commands; in particular in every
    state reached from an empty or unreadable file. *)
Theorem steps_lifecycle_ok (cs : list Command) (s : State) :
  Forall lifecycle_ok (tasks s) → Forall lifecycle_ok (tasks (steps cs s)).
Proof.
  apply steps_Forall.
  - intros new (? & ? & ? & _). by left.
  - apply task_change_lifecycle_ok.
Qed.

(** X4. No command stores a due date that the date parser rejects: if
    every due date in the list parses, so does every due date after any
    commands, rejected edits included. *)
Theorem steps_due_dates_ok (cs : list Command) (s : State) :
  Forall due_date_ok (tasks s) → Forall due_date_ok (tasks (steps cs s)).
Proof.
  apply steps_Forall.
  - by intros new (_ & _ & _ & ?).
  - unfold due_date_ok. intros task task' Hch Hok.
    destruct Hch as [now task Hnd Hndel|now task Hndel
                    |title description assignee due task Hdue]; simpl.
    + done.
    + done.
    + intros d' ->. destruct Hdue as [Hsame | [? | (d & [= <-] & ?)]]; [|done..].
      by apply Hok.
Qed.

Lemma steps_keep_records_witness :
  ∃ task', tasks (steps session store) !! 0 = Some task' ∧
           Task.id task' = "a1b2c3d4" ∧ Task.creator_id task' = 7%Z ∧
           Task.created_at task' = "2024-01-01T09:00:00".
Proof. apply (steps_keep_records session store 0 report). reflexivity. Defined.

Lemma steps_no_resurrection_witness :
  ∃ task',
    tasks (steps [CmdEdit env_ok "a1b2c3d4" (Some "Draft") None None None;
                  CmdDone env_ok "a1b2c3d4"]
                 (steps session store)) !! 1 = Some task' ∧
    Task.status task' = "deleted" ∧
    Task.deleted_at task' = Some "2024-02-02T10:00:00".
Proof.
  destruct (steps_no_resurrection
              [CmdEdit env_ok "a1b2c3d4" (Some "Draft") None None None;
               CmdDone env_ok "a1b2c3d4"]
              (steps session store) 1
              (Task.set_deleted_at (Some "2024-02-02T10:00:00")
                 (Task.set_status "deleted"
                    (Task.Build "deadbeef" "Write report" "" None None 7
                       "2024-02-02T10:00:00" "active" None None))))
    as (task' & Hi & _ & Hdel); [reflexivity|].
  destruct (Hdel eq_refl) as (Hst & _ & Hat).
  exists task'. split; [exact Hi|]. split; [exact Hst | exact Hat].
Defined.

Lemma steps_lifecycle_ok_witness :
  Forall lifecycle_ok (tasks (steps session (init Missing))).
Proof. apply steps_lifecycle_ok. apply Forall_nil_2. Defined.

Lemma steps_due_dates_ok_witness :
  Forall due_date_ok (tasks (steps session store)).
Proof.
  apply steps_due_dates_ok. apply Forall_singleton.
  intros d Hd. injection Hd as <-. eexists. reflexivity.
Defined.

(** ** Single invocations *)

Lemma after_save_cases env r :
  after_save env r = ErrSave ∨ after_save env r = r.
Proof. unfold after_save. destruct (fs env); auto. Qed.

(** X5. A reply of not-found, already-done, already-deleted, no active
    tasks or a task listing, a detail embed, and the invalid-date reply of
    [task_add] all come with the cog's state exactly as it was, list and
    file. *)
Theorem quiet_reply_keeps_state (c : Command) (s : State) :
  (∀ r, (exec c s).1 = Replied r →
        quiet r ∨ (r = ErrInvalidDate ∧ ∃ call, c = CmdAdd call) →
        step c s = s) ∧
  (∀ d, (exec c s).1 = Detailed d → step c s = s).
Proof.
  unfold step.
  destruct (exec_classify c s)
    as [r0 Hq|d0 task i Hc Hfirst Hd|call Hc|call new Hc Hfresh Hid
       |env i task task' r0 Henv Htarget Hi Hch Hconf
       |i task title description assignee Hc Htarget Hi]; simpl;
    (split; [intros r Hr Hquiet | intros d Hd']); try done.
  - injection Hr as <-.
    destruct (after_save_cases (call_env call) (TaskCreated new)) as [Heq|Heq];
      rewrite Heq in Hquiet; destruct Hquiet as [Hq | [? _]]; try done;
      inversion Hq.
  - injection Hr as <-.
    destruct (after_save_cases env r0) as [Heq|Heq];
      rewrite Heq in Hquiet; destruct Hquiet as [Hq | [Hbad _]];
      try done; try (by inversion Hq);
      destruct Hconf; try done; inversion Hq.
  - injection Hr as <-. destruct Hquiet as [Hq | [_ [call ->]]].
    + inversion Hq.
    + by destruct Hc as (? & ? & ? & ?).
Qed.

Lemma quiet_reply_keeps_state_witness :
  step (CmdDone env_ok "ffffffff") store = store ∧
  step (CmdAdd {| call_env := env_ok; call_user := 7; call_title := "t";
                  call_description := None;
                  call_due_date := Some "2024-13-40";
                  call_assignee := None |}) store = store.
Proof.
  split.
  - apply (proj1 (quiet_reply_keeps_state (CmdDone env_ok "ffffffff") store)
             ErrNotFound); [reflexivity | left; constructor].
  - eapply (proj1 (quiet_reply_keeps_state _ store) ErrInvalidDate);
      [reflexivity | right; split; [reflexivity | eexists; reflexivity]].
Defined.

(** X6. An invocation rewrites at most the one record its id addresses,
    the first with that id: every other record stays where and as it was,
    and the list grows by at most one record. *)
Theorem step_touches_only_target (c : Command) (s : State) :
  (∀ j task, tasks s !! j = Some task → cmd_target c s ≠ Some j →
             tasks (step c s) !! j = Some task) ∧
  (length (tasks s) ≤ length (tasks (step c s)) ≤ S (length (tasks s)))%nat.
Proof.
  destruct (step_tasks_shape c s)
    as [-> | [(call & new & _ & _ & _ & ->)
           | (i & task & task' & Htarget & Hi & _ & ->)]].
  - split; [done | lia].
  - split.
    + intros j task Hj _. by apply lookup_app_l_Some.
    + rewrite length_app. simpl. lia.
  - split.
    + intros j other Hj Hne. rewrite list_lookup_insert_ne; [done|].
      intros ->. by apply Hne.
    + rewrite length_insert. lia.
Qed.

Lemma step_touches_only_target_witness :
  tasks (step (CmdDone env_ok "deadbeef") (step (CmdAdd call_a) store)) !! 0
  = Some report.
Proof.
  apply (proj1 (step_touches_only_target (CmdDone env_ok "deadbeef")
                  (step (CmdAdd call_a) store)) 0 report);
    [reflexivity | discriminate].
Defined.

(** ** Which record an id addresses *)

Lemma find_task_ids (x : string) (l l' : list Task.t) :
  Task.id <$> l = Task.id <$> l' → find_task x l = find_task x l'.
Proof.
  revert l'. induction l as [|a l IH]; intros [|b l'] Hids; try done.
  simpl in *. injection Hids as Hab Hrest. rewrite Hab.
  destruct (decide (Task.id b = x)); [done|]. by rewrite (IH l').
Qed.

Lemma find_task_app_Some (x : string) (l k : list Task.t) (i : nat) :
  find_task x l = Some i → find_task x (l ++ k) = Some i.
Proof.
  revert i. induction l as [|a l IH]; intros i; simpl; [done|].
  destruct (decide (Task.id a = x)); [done|].
  intros (j & Hj & ->)%fmap_Some. by rewrite (IH j).
Qed.

Lemma find_task_app_None (x : string) (l : list Task.t) (new : Task.t) :
  find_task x l = None →
  find_task x (l ++ [new])
  = if decide (Task.id new = x) then Some (length l) else None.
Proof.
  induction l as [|a l IH]; simpl.
  - intros _. by destruct (decide (Task.id new = x)).
  - destruct (decide (Task.id a = x)); [done|].
    intros Hnone%fmap_None. rewrite (IH Hnone).
    by destruct (decide (Task.id new = x)).
Qed.

Lemma find_task_insert (x : string) (l : list Task.t) i task task' :
  l !! i = Some task → Task.id task' = Task.id task →
  find_task x (<[i := task']> l) = find_task x l.
Proof.
  intros Hi Hid. apply find_task_ids.
  rewrite list_fmap_insert, Hid. apply list_insert_id.
  by rewrite list_lookup_fmap, Hi.
Qed.

(** X7. An id keeps addressing the same position: once the lookup finds
    an id at a position, it finds it there after any commands, also after
    [task_add] has appended records that carry the same id. *)
Theorem steps_find_stable (cs : list Command) (s : State) (x : string)
    (i : nat) :
  find_task x (tasks s) = Some i → find_task x (tasks (steps cs s)) = Some i.
Proof.
  revert s. induction cs as [|c cs IH]; intros s Hfind; [done|].
  rewrite steps_cons. apply IH.
  destruct (step_tasks_shape c s)
    as [-> | [(call & new & _ & _ & _ & ->)
           | (j & task & task' & _ & Hj & Hch & ->)]].
  - done.
  - by apply find_task_app_Some.
  - rewrite (find_task_insert x _ j task task'); [done..|].
    by apply task_change_id.
Qed.

Lemma steps_find_stable_witness :
  find_task "a1b2c3d4" (tasks (steps session store)) = Some 0.
Proof. apply steps_find_stable. reflexivity. Defined.

(** What a confirmed [task_add] appended. *)
Lemma add_confirmed_tasks (call : AddCall) (s : State) (new : Task.t) :
  (exec (CmdAdd call) s).1 = Replied (TaskCreated new) →
  tasks (step (CmdAdd call) s) = (tasks s ++ [new])%list ∧ fresh_task new.
Proof.
  unfold step.
  destruct (exec_classify (CmdAdd call) s)
    as [r0 Hq|d0 task i Hc Hfirst Hd|call' Hc|call' new' Hc Hfresh Hid
       |env i task task' r0 Henv Htarget Hi Hch Hconf
       |i task title description assignee Hc Htarget Hi]; simpl; intros Hr.
  - injection Hr as ->. inversion Hq.
  - done.
  - done.
  - destruct (after_save_cases (call_env call') (TaskCreated new')) as [Heq|Heq];
      rewrite Heq in Hr; [done|]. by injection Hr as ->.
  - cbn in Htarget. done.
  - done.
Qed.

(** X8. A new record is reachable only under a fresh id.  When
    [task_add] confirms a record, the lookup of its id finds it (at the end
    of the list) if no earlier record has that id; if one has, the lookup
    still finds the earlier record, so the commands that take an id cannot
    address the new one. *)
Theorem task_add_reachability (call : AddCall) (s : State) (new : Task.t) :
  (exec (CmdAdd call) s).1 = Replied (TaskCreated new) →
  tasks (step (CmdAdd call) s) = (tasks s ++ [new])%list ∧
  (no_task_with_id (tasks s) (Task.id new) →
   first_with_id (tasks (step (CmdAdd call) s)) (Task.id new)
                 (length (tasks s)) new) ∧
  (∀ i old, first_with_id (tasks s) (Task.id new) i old →
            first_with_id (tasks (step (CmdAdd call) s)) (Task.id new) i old ∧
            i < length (tasks s)).
Proof.
  intros Hr. destruct (add_confirmed_tasks call s new Hr) as [Happ _].
  rewrite Happ. split; [done|]. split.
  - intros Habs%find_task_None.
      pose proof (find_task_app_None (Task.id new) (tasks s) new Habs) as Hfind.
      rewrite decide_True in Hfind by done.
      apply find_task_Some in Hfind as (x & Hx).
      assert (x = new) as ->; [|done].
      destruct Hx as (Hx & _). rewrite lookup_app_r in Hx by lia.
      rewrite Nat.sub_diag in Hx. by injection Hx.
  - intros i old Hold.
      pose proof (first_with_id_find _ _ _ _ Hold) as Hfind.
      apply (find_task_app_Some _ _ [new]) in Hfind.
      apply find_task_Some in Hfind as (x & Hx).
      assert (i < length (tasks s)) as Hlt.
      { apply (lookup_lt_Some _ _ old). apply Hold. }
      split; [|done]. assert (x = old) as ->; [|done].
      destruct Hx as (Hx & _). rewrite lookup_app_l in Hx by done.
      destruct Hold as (Hold & _). congruence.
Qed.

Lemma task_add_reachability_witness :
  first_with_id (tasks (step (CmdAdd call_b) (step (CmdAdd call_a) store)))
                "deadbeef" 1
                (Task.Build "deadbeef" "Write report" "" None None 7
                            "2024-02-02T10:00:00" "active" None None).
Proof.
  eapply (task_add_reachability call_b (step (CmdAdd call_a) store)
            (Task.Build "deadbeef" "Review report" "" None None 8
                        "2024-02-03T11:30:00" "active" None None)).
  - reflexivity.
  - repeat split. intros [|[|j]] other Hj Hother; [|lia..].
    injection Hother as <-. discriminate.
Defined.

(** ** Memory and file *)

(** X9. When the write goes through, a confirmed command leaves the file
    holding exactly the list in memory, whatever the file held before, so
    a restart of the cog from that file gives back the same state. *)
Theorem confirmed_write_syncs (c : Command) (s : State) (env : Env)
    (task : Task.t) (r : Response) :
  cmd_env c = Some env → fs env = WriteOk →
  (exec c s).1 = Replied r → r = TaskCreated task ∨ confirms task r →
  in_sync (step c s) ∧ init (tasks_file (step c s)) = step c s.
Proof.
  intros Henv Hfs Hr Hconf.
  assert (in_sync (step c s)) as Hsync.
  { revert Hr. unfold step, in_sync.
    destruct (exec_classify c s)
      as [r0 Hq|d0 task0 i Hc Hfirst Hd|call Hc|call new Hc Hfresh Hid
         |env' i task0 task' r0 Henv' Htarget Hi Hch Hconf'
         |i task0 title description assignee Hc Htarget Hi]; simpl; intros Hr.
    - injection Hr as <-. destruct Hconf as [-> | Hconf]; inversion Hq;
        subst; inversion Hconf.
    - done.
    - injection Hr as <-. destruct Hconf as [? | Hconf]; [done | inversion Hconf].
    - subst c. injection Henv as <-. by rewrite Hfs.
    - rewrite Henv in Henv'. injection Henv' as <-. by rewrite Hfs.
    - injection Hr as <-. destruct Hconf as [? | Hconf]; [done | inversion Hconf]. }
  split; [done|]. unfold in_sync in Hsync. unfold init. rewrite Hsync. simpl.
  rewrite <- Hsync. by destruct (step c s).
Qed.

Lemma confirmed_write_syncs_witness :
  in_sync (step (CmdDone env_ok "a1b2c3d4")
             (step (CmdEdit env_ok "a1b2c3d4" (Some "Draft") None
                            (Some "2024-13-40") None) store)).
Proof.
  eapply (confirmed_write_syncs (CmdDone env_ok "a1b2c3d4") _ env_ok);
    [reflexivity | reflexivity | reflexivity | right; constructor].
Defined.

(** ** The active listing *)

Lemma active_tasks_app (l k : list Task.t) :
  active_tasks (l ++ k) = (active_tasks l ++ active_tasks k)%list.
Proof. rewrite !active_tasks_filter. apply filter_app. Qed.

Lemma insert_take_drop_task (l : list Task.t) i task task' :
  l !! i = Some task →
  l = (take i l ++ task :: drop (S i) l)%list ∧
  <[i := task']> l = (take i l ++ task' :: drop (S i) l)%list.
Proof.
  intros Hi. split.
  - by rewrite <- (take_drop_middle l i task) at 1.
  - apply insert_take_drop. by eapply lookup_lt_Some.
Qed.

(** X10. How the commands move the active listing.  A confirmed
    [task_add] puts the new record at the end of the listing and leaves the
    rest as it was.  [task_done] and [task_delete] on an active record
    take exactly that record out: the active records before it and after
    it stay listed, in the same order. *)
Theorem active_listing_moves (s : State) :
  (∀ call new,
     (exec (CmdAdd call) s).1 = Replied (TaskCreated new) →
     active_tasks (tasks (step (CmdAdd call) s))
     = (active_tasks (tasks s) ++ [new])%list) ∧
  (∀ env task_id i task,
     first_with_id (tasks s) task_id i task → Task.status task = "active" →
     let before := active_tasks (take i (tasks s)) in
     let after := active_tasks (drop (S i) (tasks s)) in
     active_tasks (tasks s) = (before ++ task :: after)%list ∧
     active_tasks (tasks (step (CmdDone env task_id) s))
     = (before ++ after)%list ∧
     active_tasks (tasks (step (CmdDelete env task_id) s))
     = (before ++ after)%list).
Proof.
  split.
  - intros call new Hr.
    destruct (add_confirmed_tasks call s new Hr) as [-> (Hact & _)].
    rewrite active_tasks_app. simpl. by rewrite decide_True.
  - intros env task_id i task Hfirst Hact before after.
    pose proof (first_with_id_lookup _ _ _ _ Hfirst) as Hi.
    unfold step. simpl.
    rewrite (task_done_completes env s task_id i task)
      by first [done | rewrite Hact; discriminate].
    rewrite (task_delete_deletes env s task_id i task)
      by first [done | rewrite Hact; discriminate].
    simpl.
    destruct (insert_take_drop_task (tasks s) i task
                (Task.set_completed_at (Some (utcnow env))
                   (Task.set_status "done" task)) Hi) as [Hsplit ->].
    destruct (insert_take_drop_task (tasks s) i task
                (Task.set_deleted_at (Some (utcnow env))
                   (Task.set_status "deleted" task)) Hi) as [_ ->].
    rewrite Hsplit at 1. rewrite !active_tasks_app. simpl.
    rewrite decide_True by done. done.
Qed.

Lemma active_listing_moves_witness :
  active_tasks (tasks (step (CmdDone env_ok "a1b2c3d4") store)) = [].
Proof.
  apply (proj2 (active_listing_moves store) env_ok "a1b2c3d4" 0 report
           first_with_id_store eq_refl).
Defined.

(** X11. The listing command changes nothing.  With no active record it
    replies that there is none; otherwise its embed shows the first ten
    active records in list order, marks that more exist exactly when there
    are more than ten, and counts all of them in the footer. *)
Theorem task_list_spec (s : State) :
  let active := active_tasks (tasks s) in
  (active = [] → run task_list s = (NoActiveTasks, s)) ∧
  (active ≠ [] →
   ∃ shown more total,
     run task_list s = (TaskList shown more total, s) ∧
     shown `prefix_of` active ∧ length shown = Nat.min 10 (length active) ∧
     total = length active ∧ (more = true ↔ 10 < length active)).
Proof.
  intros active. unfold active. run_handler.
  destruct (active_tasks (tasks s)) as [|task rest] eqn:Hactive; simpl.
  - split; done.
  - split; [done|]. intros _. eexists _, _, _. split; [done|].
    split; [|split; [|split]].
    + apply (prefix_take (task :: rest) 10).
    + apply (length_take (task :: rest) 10).
    + done.
    + apply bool_decide_eq_true.
Qed.

Lemma task_list_spec_witness :
  ∃ shown more total,
    run task_list store = (TaskList shown more total, store) ∧
    shown `prefix_of` [report] ∧ total = 1.
Proof.
  destruct (proj2 (task_list_spec store))
    as (shown & more & total & Hrun & Hpre & _ & Htotal & _); [discriminate|].
  exists shown, more, total. split; [exact Hrun|]. split; [exact Hpre | exact Htotal].
Defined.

(** ** [task_edit] and [task_detail] *)

Lemma first_with_id_insert (l : list Task.t) task_id i task task' :
  first_with_id l task_id i task → Task.id task' = Task.id task →
  first_with_id (<[i := task']> l) task_id i task'.
Proof.
  intros (Hi & Hid & Hfirst) Hid'. repeat split.
  - apply list_lookup_insert_eq. by eapply lookup_lt_Some.
  - congruence.
  - intros j other Hj. rewrite list_lookup_insert_ne by lia. by apply Hfirst.
Qed.

Lemma early_writes_twice title description assignee task :
  early_writes title description assignee
    (early_writes title description assignee task)
  = early_writes title description assignee task.
Proof. by destruct title, description, assignee. Qed.

Lemma edited_twice title description assignee due task :
  let edited := Task.set_due_date (edited_due_date due task)
                  (early_writes title description assignee task) in
  Task.set_due_date (edited_due_date due edited)
    (early_writes title description assignee edited) = edited.
Proof.
  unfold edited_due_date. destruct due as [d|];
    [destruct (decide (d = "none"))|];
    by destruct title, description, assignee, task.
Qed.

Lemma step_edit env task_id title description due_date assignee s :
  step (CmdEdit env task_id title description due_date assignee) s
  = (run (task_edit env task_id title description due_date assignee) s).2.
Proof. unfold step. simpl. by destruct (run _ s). Qed.

Lemma saved_again env1 env2 l s :
  fs env2 = fs env1 → saved env2 l (saved env1 l s) = saved env1 l s.
Proof. intros Hfs. unfold saved. simpl. rewrite Hfs. by destruct (fs env1). Qed.

(** X12. Repeating an edit changes nothing further in memory: after a
    [task_edit] invocation, a second one with the same arguments leaves the
    list the first one left, whether the edit was accepted, rejected for
    its date or found no task, and whatever the two saves did.  When the
    save of the second invocation fares as the save of the first did, the
    file is as the first left it too. *)
Theorem task_edit_idempotent (env1 env2 : Env) (task_id : string)
    (title description due_date : option string) (assignee : option Z)
    (s : State) :
  let c1 := CmdEdit env1 task_id title description due_date assignee in
  let c2 := CmdEdit env2 task_id title description due_date assignee in
  tasks (step c2 (step c1 s)) = tasks (step c1 s) ∧
  (fs env2 = fs env1 → step c2 (step c1 s) = step c1 s).
Proof.
  intros c1 c2. unfold c1, c2. rewrite !step_edit.
  destruct (find_task task_id (tasks s)) as [i|] eqn:Hfind.
  - apply find_task_Some in Hfind as [task Hfirst].
    assert (∀ due,
      (∀ d, due = Some d → d ≠ "none" → is_Some (Strptime.strptime d)) →
      let s1 := (run (task_edit env1 task_id title description due assignee) s).2 in
      let s2 := (run (task_edit env2 task_id title description due assignee) s1).2 in
      tasks s2 = tasks s1 ∧ (fs env2 = fs env1 → s2 = s1))
      as Haccepted.
    { intros due Hdue s1 s2. unfold s2, s1.
      rewrite (task_edit_edits env1 s task_id title description due assignee
                 i task) by done. simpl.
      rewrite (task_edit_edits env2 _ task_id title description due assignee i
                 (Task.set_due_date (edited_due_date due task)
                    (early_writes title description assignee task))); [|simpl|done].
      - simpl. rewrite edited_twice, list_insert_insert_eq.
        split; [done|]. apply saved_again.
      - apply (first_with_id_insert _ _ _ task); [done|]. simpl.
        apply early_writes_id. }
    destruct due_date as [d|]; [|by apply Haccepted].
    destruct (decide (d = "none")) as [->|Hnone].
    { apply Haccepted. by intros ? [= <-]. }
    destruct (Strptime.strptime d) as [ymd|] eqn:Ed.
    { apply Haccepted. intros ? [= <-] _. by rewrite Ed. }
    rewrite (task_edit_invalid_date env1 s task_id title description d assignee
               i task) by done. simpl.
    rewrite (task_edit_invalid_date env2 _ task_id title description d assignee
               i (early_writes title description assignee task)); [|simpl|done..].
    + simpl. by rewrite early_writes_twice, list_insert_insert_eq.
    + apply (first_with_id_insert _ _ _ task); [done|]. apply early_writes_id.
  - apply find_task_None in Hfind.
    rewrite (task_edit_not_found env1 s) by done. simpl.
    by rewrite task_edit_not_found.
Qed.

Lemma task_edit_idempotent_witness :
  let c1 := CmdEdit env_ok "a1b2c3d4" (Some "Draft") None (Some "none") None in
  let c2 := CmdEdit {| uuid4 := ""; utcnow := "2024-03-01T00:00:00";
                       fs := WriteOk |}
                    "a1b2c3d4" (Some "Draft") None (Some "none") None in
  step c2 (step c1 store) = step c1 store.
Proof.
  apply (task_edit_idempotent env_ok
           {| uuid4 := ""; utcnow := "2024-03-01T00:00:00"; fs := WriteOk |}
           "a1b2c3d4" (Some "Draft") None (Some "none") None store).
  reflexivity.
Defined.

Lemma task_detail_run (s : State) task_id i task :
  first_with_id (tasks s) task_id i task →
  task_detail task_id s
  = (Next {| detail_color := status_color (Task.status task);
             detail_task := task;
             detail_completed_at :=
               if truthy (Task.completed_at task)
               then Task.completed_at task else None;
             detail_deleted_at :=
               if truthy (Task.deleted_at task)
               then Task.deleted_at task else None |}, s).
Proof.
  intros Hfirst. unfold task_detail, bind, gets, reply, ret, deref. simpl.
  by rewrite (first_with_id_find _ _ _ _ Hfirst),
    (first_with_id_lookup _ _ _ _ Hfirst).
Qed.

(** X13. The detail view follows the commands.  Right after
    [task_done], [task_delete] or [task_edit] has confirmed a change,
    [task_detail] of the same id shows exactly the record named in the
    confirmation, coloured by its status, and changes nothing. *)
Theorem detail_after_confirmation (c : Command) (s : State)
    (task_id : string) (task : Task.t) (r : Response) :
  cmd_task_id c = Some task_id →
  (exec c s).1 = Replied r → confirms task r →
  ∃ d, exec (CmdDetail task_id) (step c s) = (Detailed d, step c s) ∧
       detail_task d = task ∧
       detail_color d = status_color (Task.status task).
Proof.
  intros Hid. unfold step.
  destruct (exec_classify c s)
    as [r0 Hq|d0 task0 i Hc Hfirst Hd|call Hc|call new Hc Hfresh Hidn
       |env i task0 task' r0 Henv Htarget Hi Hch Hconf'
       |i task0 title description assignee Hc Htarget Hi]; simpl;
    intros Hr Hconf.
  - injection Hr as <-. destruct Hconf; inversion Hq.
  - done.
  - injection Hr as <-. inversion Hconf.
  - subst c. done.
  - injection Hr as <-.
    assert (task' = task) as ->.
    { destruct (after_save_cases env r0) as [Heq|Heq]; rewrite Heq in Hconf.
      - inversion Hconf.
      - destruct Hconf'; by inversion Hconf. }
    unfold cmd_target in Htarget. rewrite Hid in Htarget. simpl in Htarget.
    apply find_task_Some in Htarget as [found Hfirst].
    assert (found = task0) as -> by (destruct Hfirst as [? _]; congruence).
    eexists. rewrite (task_detail_run _ task_id i task).
    + split; [done|]. by split.
    + simpl. apply (first_with_id_insert _ _ _ task0); [done|].
      by apply task_change_id.
  - injection Hr as <-. inversion Hconf.
Qed.

Lemma detail_after_confirmation_witness :
  ∃ d, exec (CmdDetail "a1b2c3d4") (step (CmdDone env_ok "a1b2c3d4") store)
       = (Detailed d, step (CmdDone env_ok "a1b2c3d4") store) ∧
       detail_task d = Task.set_completed_at (Some "2024-02-02T10:00:00")
                         (Task.set_status "done" report) ∧
       detail_color d = LightGrey.
Proof.
  eapply (detail_after_confirmation (CmdDone env_ok "a1b2c3d4") store);
    [reflexivity | reflexivity | constructor].
Defined.

(** ** Dates the parser accepts *)

Lemma digit_char_digit (n : N) :
  (n < 10)%N →
  N_of_ascii (Strptime.digit_char n) = (48 + n)%N ∧
  Strptime.is_digit (48 + n) = true ∧
  Strptime.digit (48 + n) = n.
Proof.
  intros Hn.
  assert (n = 0 ∨ n = 1 ∨ n = 2 ∨ n = 3 ∨ n = 4 ∨ n = 5 ∨ n = 6 ∨ n = 7
          ∨ n = 8 ∨ n = 9)%N as Hcases by lia.
  repeat destruct Hcases as [-> | Hcases]; try subst n; by vm_compute.
Qed.

Lemma utf8_decode_ascii (b : N) (rest : list N) :
  (b < 128)%N →
  Strptime.utf8_decode (b :: rest) = b :: Strptime.utf8_decode rest.
Proof.
  intros Hb. cbn [Strptime.utf8_decode].
  by rewrite (proj2 (N.ltb_lt b 128) Hb).
Qed.

Lemma valid_date_bounds (y m d : N) :
  Strptime.valid_date y m d = true →
  (1 ≤ y ≤ 9999 ∧ 1 ≤ m ≤ 12 ∧ 1 ≤ d ≤ 31)%N.
Proof.
  unfold Strptime.valid_date. rewrite !andb_true_iff, !N.leb_le.
  intros (((((? & ?) & ?) & ?) & ?) & Hd).
  assert (Strptime.days_in_month y m ≤ 31)%N.
  { unfold Strptime.days_in_month. repeat case_match; lia. }
  lia.
Qed.

(** With four digits and a dash in front, the pattern goes on with the
    month group on the rest. *)
Lemma matches_year (a b c e : N) (rest : list N) :
  Strptime.is_digit a = true → Strptime.is_digit b = true →
  Strptime.is_digit c = true → Strptime.is_digit e = true →
  Strptime.matches (a :: b :: c :: e :: Strptime.dash :: rest)
  = '(m, r3) ← Strptime.group_m rest;
    r4 ← Strptime.lit Strptime.dash r3;
    '(d, r5) ← Strptime.group_d r4;
    [((1000 * Strptime.digit a + 100 * Strptime.digit b
       + 10 * Strptime.digit c + Strptime.digit e)%N, m, d, r5)].
Proof.
  intros Ha Hb Hc He. unfold Strptime.matches, Strptime.group_Y.
  rewrite Ha, Hb, Hc, He. simpl. by rewrite !app_nil_r.
Qed.

Lemma strptime_ymd_string (y m d : N) :
  Strptime.valid_date y m d = true →
  Strptime.strptime (Strptime.ymd_string y m d) = Some (y, m, d).
Proof.
  intros Hvalid. destruct (valid_date_bounds y m d Hvalid) as (Hy & Hm & Hd).
  unfold Strptime.strptime, Strptime.code_points, Strptime.ymd_string.
  rewrite list_ascii_of_string_of_list_ascii.
  destruct (digit_char_digit (y / 1000)) as (Ha0 & Ha & Ha').
  { apply N.Div0.div_lt_upper_bound. lia. }
  destruct (digit_char_digit (y / 100 mod 10)) as (Hb0 & Hb & Hb');
    [by apply N.mod_lt|].
  destruct (digit_char_digit (y / 10 mod 10)) as (Hc0 & Hc & Hc');
    [by apply N.mod_lt|].
  destruct (digit_char_digit (y mod 10)) as (He0 & He & He');
    [by apply N.mod_lt|].
  assert (y / 1000 < 10)%N as Hq by (apply N.Div0.div_lt_upper_bound; lia).
  pose proof (N.mod_lt (y / 100) 10 ltac:(done)) as Hr2.
  pose proof (N.mod_lt (y / 10) 10 ltac:(done)) as Hr1.
  pose proof (N.mod_lt y 10 ltac:(done)) as Hr0.
  rewrite !fmap_cons, Ha0, Hb0, Hc0, He0.
  rewrite !utf8_decode_ascii by lia.
  change (N_of_ascii "-") with Strptime.dash.
  rewrite utf8_decode_ascii by (by vm_compute).
  rewrite matches_year by done. rewrite Ha', Hb', Hc', He'.
  assert (1000 * (y / 1000) + 100 * (y / 100 mod 10) + 10 * (y / 10 mod 10)
          + y mod 10 = y)%N as ->.
  { clear Hr0 Hr1 Hr2 Hq.
    replace (y / 100)%N with (y / 10 / 10)%N
      by (by rewrite N.Div0.div_div).
    replace (y / 1000)%N with (y / 10 / 10 / 10)%N
      by (by rewrite !N.Div0.div_div).
    pose proof (N.Div0.div_mod y 10) as E1.
    pose proof (N.Div0.div_mod (y / 10) 10) as E2.
    pose proof (N.Div0.div_mod (y / 10 / 10) 10) as E3.
    assert (y / 10 / 10 / 10 < 10)%N as Hlt.
    { rewrite !N.Div0.div_div. apply N.Div0.div_lt_upper_bound. simpl. lia. }
    revert E1 E2 E3 Hlt.
    generalize (y mod 10)%N (y / 10 mod 10)%N (y / 10 / 10 mod 10)%N.
    generalize (y / 10 / 10 / 10)%N. generalize (y / 10 / 10)%N.
    generalize (y / 10)%N. intros q1 q2 q3 r0 r1 r2 E1 E2 E3 Hlt. lia. }
  clear Ha0 Ha Ha' Hb0 Hb Hb' Hc0 Hc Hc' He0 He He' Hq Hr0 Hr1 Hr2.
  assert (m = 1 ∨ m = 2 ∨ m = 3 ∨ m = 4 ∨ m = 5 ∨ m = 6 ∨ m = 7 ∨ m = 8
          ∨ m = 9 ∨ m = 10 ∨ m = 11 ∨ m = 12)%N as Hms by lia.
  assert (d = 1 ∨ d = 2 ∨ d = 3 ∨ d = 4 ∨ d = 5 ∨ d = 6 ∨ d = 7 ∨ d = 8
          ∨ d = 9 ∨ d = 10 ∨ d = 11 ∨ d = 12 ∨ d = 13 ∨ d = 14 ∨ d = 15
          ∨ d = 16 ∨ d = 17 ∨ d = 18 ∨ d = 19 ∨ d = 20 ∨ d = 21 ∨ d = 22
          ∨ d = 23 ∨ d = 24 ∨ d = 25 ∨ d = 26 ∨ d = 27 ∨ d = 28 ∨ d = 29
          ∨ d = 30 ∨ d = 31)%N as Hds by lia.
  clear Hm Hd Hy. revert Hvalid.
  repeat destruct Hms as [-> | Hms]; try subst m;
    repeat destruct Hds as [-> | Hds]; try subst d;
    intros Hvalid;
    match goal with
    | |- match ?l with _ => _ end = _ =>
        let l' := eval vm_compute in l in change l with l'
    end;
    cbv beta iota; by rewrite Hvalid.
Qed.

Lemma ymd_string_not_special (y m d : N) :
  Strptime.ymd_string y m d ≠ "" ∧ Strptime.ymd_string y m d ≠ "none".
Proof.
  split; intros Heq; apply (f_equal String.length) in Heq; discriminate.
Qed.

(** X14. Every calendar date is accepted in its zero-padded spelling.
    For a year from 1 to 9999, a month and a day that exists in it, the
    string YYYY-MM-DD parses to that date, [task_add] creates the task with
    that string as due date, and [task_edit] on a task it finds sets that
    string as due date. *)
Theorem proper_dates_accepted (env : Env) (s : State) (y m d : N) :
  Strptime.valid_date y m d = true →
  let due := Strptime.ymd_string y m d in
  Strptime.strptime due = Some (y, m, d) ∧
  (∀ user_id title description assignee,
     let new_task :=
       Task.Build (substring 0 8 (uuid4 env)) title (default "" description)
                  (Some due) assignee user_id (utcnow env) "active" None None in
     run (task_add env user_id title description (Some due) assignee) s
     = (after_save env (TaskCreated new_task),
        saved env (tasks s ++ [new_task]) s)) ∧
  (∀ task_id title description assignee i task,
     first_with_id (tasks s) task_id i task →
     let edited := Task.set_due_date (Some due)
                     (early_writes title description assignee task) in
     run (task_edit env task_id title description (Some due) assignee) s
     = (after_save env (TaskEdited edited),
        saved env (<[i := edited]> (tasks s)) s)).
Proof.
  intros Hvalid due.
  pose proof (strptime_ymd_string y m d Hvalid) as Hparse.
  destruct (ymd_string_not_special y m d) as [Hne Hnone]. fold due in Hparse, Hne, Hnone.
  split; [done|]. split.
  - intros user_id title description assignee new_task.
    rewrite task_add_appends by (intros ? [= <-] _; by rewrite Hparse).
    unfold truthy. by rewrite decide_False.
  - intros task_id title description assignee i task Hfirst edited.
    rewrite (task_edit_edits env s task_id title description (Some due)
               assignee i task) by (try done; intros ? [= <-] _; by rewrite Hparse).
    unfold edited, edited_due_date. by rewrite decide_False.
Qed.

Lemma proper_dates_accepted_witness :
  Strptime.strptime "2024-02-29" = Some (2024, 2, 29)%N.
Proof.
  apply (proper_dates_accepted env_ok store 2024 2 29). reflexivity.
Defined.

(** * Guild configuration *)

Lemma get_guild_config_lookup (guild_id : Z) (s : AdminCog.State) (k : string) :
  AdminCog.config_data (AdminCog._get_guild_config guild_id s).2 !!! k
  = AdminCog.config_data s !!! k.
Proof.
  unfold AdminCog._get_guild_config. simpl.
  destruct (AdminCog.config_data s !! (pretty guild_id : string)) as [c|] eqn:Hk;
    [done|]. simpl.
  rewrite !lookup_total_alt.
  destruct (decide (k = pretty guild_id)) as [->|Hne].
  - by rewrite lookup_insert_eq, Hk.
  - by rewrite lookup_insert_ne.
Qed.

Lemma get_guild_config_value (guild_id : Z) (s : AdminCog.State) :
  (AdminCog._get_guild_config guild_id s).1
  = AdminCog.config_data s !!! (pretty guild_id : string).
Proof. unfold AdminCog._get_guild_config. simpl. apply get_guild_config_lookup. Qed.

Lemma get_guild_config_file (guild_id : Z) (s : AdminCog.State) :
  AdminCog.config_file (AdminCog._get_guild_config guild_id s).2
  = AdminCog.config_file s.
Proof.
  unfold AdminCog._get_guild_config. simpl.
  by destruct (AdminCog.config_data s !! (pretty guild_id : string)).
Qed.

(** The map a setting command leaves, whatever the save does. *)
Lemma config_set_data key ok fs guild_id channel (s : AdminCog.State) :
  AdminCog.config_data (AdminCog.config_set key ok fs (Some guild_id) channel s).2
  = <[(pretty guild_id : string) :=
        <[key := channel]> (AdminCog.config_data s !!! (pretty guild_id : string))]>
      (AdminCog.config_data s).
Proof.
  unfold AdminCog.config_set.
  destruct (AdminCog._get_guild_config guild_id s) as [cfg s1] eqn:Hget.
  assert (s1 = (AdminCog._get_guild_config guild_id s).2) as -> by by rewrite Hget.
  assert (AdminCog.config_data (AdminCog.set_key guild_id key channel
            (AdminCog._get_guild_config guild_id s).2)
          = <[(pretty guild_id : string) :=
                <[key := channel]>
                  (AdminCog.config_data s !!! (pretty guild_id : string))]>
              (AdminCog.config_data s)) as Hdata.
  { unfold AdminCog.set_key. cbn [AdminCog.config_data].
    rewrite get_guild_config_lookup.
    unfold AdminCog._get_guild_config. cbn [snd].
    destruct (AdminCog.config_data s !! (pretty guild_id : string)); [done|].
    cbn [AdminCog.config_data]. apply insert_insert_eq. }
  destruct (AdminCog.save_config_data _ _ _) as [[|] file]; simpl; apply Hdata.
Qed.

Lemma get_guild_config_present (guild_id : Z) (s : AdminCog.State) c :
  AdminCog.config_data s !! (pretty guild_id : string) = Some c →
  AdminCog._get_guild_config guild_id s = (c, s).
Proof.
  intros Hk. unfold AdminCog._get_guild_config. rewrite Hk.
  by rewrite lookup_total_alt, Hk.
Qed.

Lemma config_show_run (guild_id : Z) (s : AdminCog.State) :
  AdminCog.config_show (Some guild_id) s
  = (AdminCog.ConfigShown (AdminCog.visible s guild_id "welcome_channel_id")
                          (AdminCog.visible s guild_id "logging_channel_id"),
     (AdminCog._get_guild_config guild_id s).2).
Proof.
  unfold AdminCog.config_show, AdminCog.visible.
  pose proof (get_guild_config_value guild_id s) as Hv.
  destruct (AdminCog._get_guild_config guild_id s) as [cfg s1]. simpl in *.
  by rewrite Hv.
Qed.

Lemma shown_insert_eq (cfg : gmap string Z) key (channel : Z) :
  channel ≠ 0%Z → AdminCog.shown (<[key := channel]> cfg) key = Some channel.
Proof.
  intros Hne. unfold AdminCog.shown. rewrite lookup_insert_eq.
  by rewrite decide_False.
Qed.

Lemma shown_insert_ne (cfg : gmap string Z) key key' (channel : Z) :
  key ≠ key' →
  AdminCog.shown (<[key := channel]> cfg) key' = AdminCog.shown cfg key'.
Proof. intros Hne. unfold AdminCog.shown. by rewrite lookup_insert_ne. Qed.

(** X15. What was set is what is shown.  After either setting command in
    a guild, with a channel id other than 0 and whatever the save did,
    [config_show] in that guild displays the new channel under the key
    that was set and, under the other key, what was displayed before; the
    display itself changes nothing any more. *)
Theorem config_set_then_show (fs : FsOutcome) (guild_id channel : Z)
    (s : AdminCog.State) :
  channel ≠ 0%Z →
  (let s' := (AdminCog.config_set_welcome_channel fs (Some guild_id) channel s).2 in
   AdminCog.config_show (Some guild_id) s'
   = (AdminCog.ConfigShown (Some channel)
        (AdminCog.visible s guild_id "logging_channel_id"), s')) ∧
  (let s' := (AdminCog.config_set_logging_channel fs (Some guild_id) channel s).2 in
   AdminCog.config_show (Some guild_id) s'
   = (AdminCog.ConfigShown
        (AdminCog.visible s guild_id "welcome_channel_id") (Some channel), s')).
Proof.
  intros Hne.
  assert (∀ key ok,
    let s' := (AdminCog.config_set key ok fs (Some guild_id) channel s).2 in
    (AdminCog._get_guild_config guild_id s').2 = s' ∧
    ∀ key', AdminCog.visible s' guild_id key'
            = AdminCog.shown (<[key := channel]>
                (AdminCog.config_data s !!! (pretty guild_id : string))) key')
    as Hset.
  { intros key ok s'.
    pose proof (config_set_data key ok fs guild_id channel s) as Hdata.
    fold s' in Hdata. split.
    - erewrite get_guild_config_present; [done|].
      rewrite Hdata. apply lookup_insert_eq.
    - intros key'. unfold AdminCog.visible.
      by rewrite Hdata, lookup_total_alt, lookup_insert_eq. }
  split; cbv zeta;
    unfold AdminCog.config_set_welcome_channel,
      AdminCog.config_set_logging_channel;
    rewrite config_show_run.
  - destruct (Hset "welcome_channel_id" AdminCog.WelcomeChannelSet)
      as [Hget Hvis].
    cbv zeta in Hget, Hvis. rewrite Hget, !Hvis, shown_insert_eq by done.
    by rewrite shown_insert_ne.
  - destruct (Hset "logging_channel_id" AdminCog.LoggingChannelSet)
      as [Hget Hvis].
    cbv zeta in Hget, Hvis. rewrite Hget, !Hvis, shown_insert_eq by done.
    by rewrite shown_insert_ne.
Qed.

Lemma config_set_then_show_witness :
  AdminCog.config_show (Some 42%Z)
    (AdminCog.config_set_welcome_channel OpenRaises (Some 42%Z) 1001
       (AdminCog.init Missing)).2
  = (AdminCog.ConfigShown (Some 1001%Z) None,
     (AdminCog.config_set_welcome_channel OpenRaises (Some 42%Z) 1001
        (AdminCog.init Missing)).2).
Proof.
  apply (proj1 (config_set_then_show OpenRaises 42 1001 (AdminCog.init Missing)
                  ltac:(discriminate))).
Defined.

Lemma exec_config_data (c : AdminCog.Command) (guild_id : Z)
    (s : AdminCog.State) (k : string) :
  k ≠ pretty guild_id →
  AdminCog.config_data (AdminCog.exec c (Some guild_id) s).2 !! k
  = AdminCog.config_data s !! k.
Proof.
  intros Hne. destruct c as [|fs channel|fs channel]; cbn [AdminCog.exec].
  - rewrite config_show_run. cbn [snd]. unfold AdminCog._get_guild_config.
    cbn [snd].
    destruct (AdminCog.config_data s !! (pretty guild_id : string)); [done|].
    cbn [AdminCog.config_data]. by rewrite lookup_insert_ne.
  - unfold AdminCog.config_set_welcome_channel.
    by rewrite config_set_data, lookup_insert_ne.
  - unfold AdminCog.config_set_logging_channel.
    by rewrite config_set_data, lookup_insert_ne.
Qed.

(** X16. Guilds do not see each other's settings.  A command run in one
    guild leaves the record of every other guild as it was, because
    different guild ids have different keys; and a command run outside any
    guild replies that it is guild-only and changes nothing. *)
Theorem config_guilds_isolated (c : AdminCog.Command) (s : AdminCog.State) :
  (∀ guild_id other, other ≠ guild_id →
     AdminCog.config_data (AdminCog.exec c (Some guild_id) s).2
       !! (pretty other : string)
     = AdminCog.config_data s !! (pretty other : string)) ∧
  AdminCog.exec c None s = (AdminCog.GuildOnly, s).
Proof.
  split.
  - intros guild_id other Hne. apply exec_config_data.
    intros Heq. apply Hne. by apply (inj pretty).
  - by destruct c.
Qed.

Lemma config_guilds_isolated_witness :
  AdminCog.config_data
    (AdminCog.exec (AdminCog.SetWelcome WriteOk 1001) (Some 42%Z)
       (AdminCog.init Missing)).2 !! "43" = None.
Proof.
  apply (proj1 (config_guilds_isolated (AdminCog.SetWelcome WriteOk 1001)
                  (AdminCog.init Missing)) 42%Z 43%Z).
  discriminate.
Defined.

(** X17. The two settings are independent: setting the welcome channel
    and then the logging channel of a guild leaves the same map in memory
    as setting them in the other order, whatever the saves did. *)
Theorem config_settings_commute (fs1 fs2 fs3 fs4 : FsOutcome)
    (guild_id welcome logging : Z) (s : AdminCog.State) :
  AdminCog.config_data
    (AdminCog.config_set_logging_channel fs2 (Some guild_id) logging
       (AdminCog.config_set_welcome_channel fs1 (Some guild_id) welcome s).2).2
  = AdminCog.config_data
      (AdminCog.config_set_welcome_channel fs4 (Some guild_id) welcome
         (AdminCog.config_set_logging_channel fs3 (Some guild_id) logging s).2).2.
Proof.
  unfold AdminCog.config_set_welcome_channel, AdminCog.config_set_logging_channel.
  rewrite !config_set_data, !lookup_total_alt, !lookup_insert_eq. simpl.
  rewrite !insert_insert_eq. f_equal. by apply insert_insert_ne.
Qed.

(** X18. Looking is harmless.  [config_show] may store an empty record
    for the guild, but what it displays for any guild and key is the same
    before and after, it displays what the stored record holds (nothing for
    a missing record), and a second [config_show] gives the same reply and
    changes nothing. *)
Theorem config_show_invisible (guild_id : Z) (s : AdminCog.State) :
  let r := (AdminCog.config_show (Some guild_id) s).1 in
  let s' := (AdminCog.config_show (Some guild_id) s).2 in
  r = AdminCog.ConfigShown (AdminCog.visible s guild_id "welcome_channel_id")
                           (AdminCog.visible s guild_id "logging_channel_id") ∧
  (∀ other key, AdminCog.visible s' other key = AdminCog.visible s other key) ∧
  AdminCog.config_show (Some guild_id) s' = (r, s').
Proof.
  intros r s'. unfold r, s'. rewrite !config_show_run. simpl.
  assert (∀ other key,
    AdminCog.visible (AdminCog._get_guild_config guild_id s).2 other key
    = AdminCog.visible s other key) as Hvis.
  { intros other key. unfold AdminCog.visible.
    by rewrite get_guild_config_lookup. }
  split; [done|]. split; [done|]. rewrite !Hvis. f_equal.
  unfold AdminCog._get_guild_config. simpl.
  destruct (AdminCog.config_data s !! (pretty guild_id : string)) eqn:Hk; simpl.
  - by rewrite Hk.
  - by rewrite lookup_insert_eq.
Qed.
